(** * AI Voice Assistant: the audio-submission contract

    A shallow embedding of the two TypeScript programs that carry one
    recording from the browser to the processing backend:

    - [Relay]: the Next.js route handler [POST] of
      [src/app/api/process-voice/route.ts], on a POSIX system;
    - [Client]: the event handlers [startRecording], [stopRecording],
      [handleSubmit] and the render function of the page component [Home];
    - [RelayRuns] and [Page]: one call of the relay as a relation, and the
      page over a sequence of handler calls and recorder events.

    Asynchronous code is written in an exception-and-state monad: every
    [await] of a platform promise becomes a call whose outcome (resolved or
    rejected) is supplied by the caller, and every effect on the outside
    world (file system, network, console, audio playback) is recorded in the
    state. *)

From Stdlib Require Import Strings.Byte Strings.Ascii.
From stdpp Require Import gmap strings list pretty.

#[local] Set Warnings "-register-all".

(** ** JavaScript values and exceptions *)

(** A JavaScript number: a finite double [m * 2^e], the negative zero
    that [JSON.parse] builds from [-0], an infinity, which [JSON.parse]
    builds from a literal beyond the range of doubles such as [1e400], or
    NaN.  The programs never compute with a number; they test it for
    truthiness and pass it through [JSON.stringify]. *)
Inductive jsnum : Type :=
| NumFinite (m e : Z)
| NumNegZero
| NumInfinity (negative : bool)
| NumNaN.

(** Values as [JSON.parse] builds them, plus [undefined].  An object is a
    finite map from property names to values. *)
Inductive jsval : Type :=
| JUndefined
| JNull
| JBool (b : bool)
| JNum (n : jsnum)
| JStr (s : string)
| JArr (xs : list jsval)
| JObj (props : gmap string jsval).

(** Thrown values. *)
Inductive exn : Type :=
| JsError (message : string)       (* [new Error(message)] *)
| TypeError (message : string)     (* read of a property of null, call of a non-function, failed fetch *)
| SyntaxError                      (* [Response.json()] on a body that is not JSON;
                                      its message depends on the body *)
| SystemError (code : string)      (* errors of [fs]: ENOENT, EACCES, ENOSPC *)
| DOMException (name : string).    (* NotAllowedError, NotFoundError of [getUserMedia] *)

(** JavaScript's ToBoolean: among the numbers both zeros and NaN are falsy. *)
Definition num_truthy (n : jsnum) : bool :=
  match n with
  | NumFinite m _ => negb (m =? 0)%Z
  | NumNegZero | NumNaN => false
  | NumInfinity _ => true
  end.

Definition truthy (v : jsval) : bool :=
  match v with
  | JUndefined | JNull => false
  | JBool b => b
  | JNum n => num_truthy n
  | JStr s => negb (String.eqb s "")
  | JArr _ | JObj _ => true
  end.

(** A non-empty string value. *)
Definition nonempty_string (v : jsval) : bool :=
  match v with
  | JStr s => negb (String.eqb s "")
  | _ => false
  end.

(** A binary object: [Blob], and [Buffer] for its bytes. *)
Definition Buffer : Type := list Byte.byte.

Record Blob : Type := mkBlob { blob_bytes : Buffer; blob_type : string }.

(** [new Blob(parts, { type })]: the parts' bytes, concatenated in order. *)
Definition new_Blob (parts : list Buffer) (type : string) : Blob :=
  mkBlob (concat parts) type.

(** What [fetch] gives back: a rejected promise, or a [Response] with its
    status and its body; [None] is a body that [Response.json()] cannot
    parse. *)
Inductive FetchOutcome : Type :=
| FetchRejected (e : exn)
| FetchResolved (status : N) (body : option jsval).

(** [Response.ok]: the status is in the range 200-299. *)
Definition status_ok (status : N) : bool :=
  ((200 <=? status) && (status <=? 299))%N.

(** ** Computations with exceptions and state *)

Inductive Outcome (A : Type) : Type :=
| Ok (a : A)
| Throw (e : exn).
Arguments Ok {A} a.
Arguments Throw {A} e.

Record Eff (St A : Type) : Type := mkEff { run : St → Outcome A * St }.
Arguments mkEff {St A} run.
Arguments run {St A} e s.

Section Monad.
Context {St : Type}.

Definition eff_ret {A} (a : A) : Eff St A := mkEff (λ s, (Ok a, s)).

Definition eff_bind {A B} (f : A → Eff St B) (m : Eff St A) : Eff St B :=
  mkEff (λ s, match run m s with
              | (Ok a, s') => run (f a) s'
              | (Throw e, s') => (Throw e, s')
              end).

(** [throw e] *)
Definition throw {A} (e : exn) : Eff St A := mkEff (λ s, (Throw e, s)).

(** [try { body } catch (e) { handler e }] *)
Definition try_catch {A} (body : Eff St A) (handler : exn → Eff St A) : Eff St A :=
  mkEff (λ s, match run body s with
              | (Ok a, s') => (Ok a, s')
              | (Throw e, s') => run (handler e) s'
              end).

(** [try { body } finally { fin }], for a [fin] that does not throw or
    return: the outcome of [body] stands. *)
Definition try_finally {A} (body : Eff St A) (fin : St → St) : Eff St A :=
  mkEff (λ s, let '(o, s') := run body s in (o, fin s')).

Definition modify (f : St → St) : Eff St () := mkEff (λ s, (Ok (), f s)).

Definition get_state : Eff St St := mkEff (λ s, (Ok s, s)).

(** Settle an outcome that the platform decided. *)
Definition settle {A} (o : Outcome A) : Eff St A := mkEff (λ s, (o, s)).

End Monad.

Global Instance Eff_ret {St} : MRet (Eff St) := @eff_ret St.
Global Instance Eff_bind {St} : MBind (Eff St) := @eff_bind St.

(** The property [k] of a value that is not null or undefined: the
    property of an object, and undefined on every other value (no primitive
    and no array has an own or inherited property of the names read here). *)
Definition prop (v : jsval) (k : string) : jsval :=
  match v with
  | JObj props => default JUndefined (props !! k)
  | _ => JUndefined
  end.

(** [v.k]: a TypeError on null and undefined. *)
Definition get_prop {St} (v : jsval) (k : string) : Eff St jsval :=
  match v with
  | JUndefined =>
      throw (TypeError ("Cannot read properties of undefined (reading '" +:+ k +:+ "')"))
  | JNull =>
      throw (TypeError ("Cannot read properties of null (reading '" +:+ k +:+ "')"))
  | _ => mret (prop v k)
  end.

(** [await response.json()] on a resolved fetch. *)
Definition response_json {St} (body : option jsval) : Eff St jsval :=
  match body with
  | Some v => mret v
  | None => throw SyntaxError
  end.

Definition is_undefined (v : jsval) : bool :=
  match v with JUndefined => true | _ => false end.

(** [JSON.parse(JSON.stringify(v))] for a value inside an array or an
    object: an infinity and NaN are written as null, the negative zero as
    0; an undefined element of an array is written as null, an undefined
    property of an object is left out. *)
Fixpoint json_roundtrip (v : jsval) : jsval :=
  match v with
  | JUndefined => JNull
  | JNum (NumInfinity _) | JNum NumNaN => JNull
  | JNum NumNegZero => JNum (NumFinite 0 0)
  | JArr xs => JArr (json_roundtrip <$> xs)
  | JObj props =>
      JObj (omap (λ x, if is_undefined x then None else Some (json_roundtrip x)) props)
  | _ => v
  end.

(** What the reader of a JSON body finds in a property that the writer set
    to [v]: nothing for undefined, which [JSON.stringify] leaves out. *)
Definition as_received (v : jsval) : jsval :=
  if is_undefined v then JUndefined else json_roundtrip v.

(** The body of [JSON.stringify] of an object literal, as [JSON.parse]
    reads it back. *)
Definition JSON_object (props : list (string * jsval)) : jsval :=
  JObj (list_to_map
          (omap (λ kv, if is_undefined kv.2 then None else Some (kv.1, json_roundtrip kv.2))
                props)).

(** An HTTP response with a JSON body, as [NextResponse.json(obj, { status })]
    builds it; [body] is the value a reader parses from it. *)
Record NextResponse : Type := mkResponse { status : N; body : jsval }.

Definition NextResponse_json (props : list (string * jsval)) (st : N) : NextResponse :=
  mkResponse st (JSON_object props).

(** ** The Submission Relay: [route.ts] *)

Module Relay.

Record File : Type := mkFile { file_name : string; file_type : string; file_bytes : Buffer }.

(** A field of an incoming multipart form is a string or a file. *)
Inductive FormDataEntryValue : Type :=
| EntryString (s : string)
| EntryFile (f : File).

Definition FormData : Type := list (string * FormDataEntryValue).

(** [formData.get(name)]: the first value of that name, [None] for null. *)
Fixpoint FormData_get (fd : FormData) (name : string) : option FormDataEntryValue :=
  match fd with
  | [] => None
  | (k, v) :: rest => if String.eqb k name then Some v else FormData_get rest name
  end.

(** [!audioFile]: null and the empty string are falsy, a File is an object. *)
Definition entry_truthy (e : option FormDataEntryValue) : bool :=
  match e with
  | None => false
  | Some (EntryString s) => negb (String.eqb s "")
  | Some (EntryFile _) => true
  end.

(** The incoming request: [request.formData()] resolves to the form, or
    rejects when the body is not a form. *)
Record NextRequest : Type := mkRequest { request_formData : Outcome FormData }.

(** A part of the outgoing form: [formData2.append(name, blob, filename)]. *)
Record Part : Type := mkPart { part_name : string; part_blob : Blob; part_filename : string }.

(** A failure of [fs.writeFileSync]: its errno, and how far the call got.
    The call opens the file with flag [w], which creates or truncates it,
    and then writes: [written] is [None] when the open itself failed, and
    the number of bytes on disk when the error came after the open. *)
Record WriteFailure : Type := mkWriteFailure { errno : string; written : option nat }.

(** What the handler reads from the platform during one call. *)
Record Platform : Type := mkPlatform {
  tmpdir : string;                     (* [os.tmpdir()] *)
  now : N;                             (* [Date.now()] *)
  write_error : option WriteFailure;   (* how [fs.writeFileSync] fails, if it fails *)
  backend : FetchOutcome               (* how the fetch to the backend service settles *)
}.

Inductive Event : Type :=
| Fetch (url method : string) (form : list Part)
| ConsoleError (label : string) (e : exn).

(** The world the handler acts on: the files on disk, by the path handed
    to the [fs] module, and what it sent and printed, oldest first.  Two
    paths that name one file (through a link, or a relative and an
    absolute one) are not identified. *)
Record World : Type := mkWorld { fs : gmap string Buffer; log : list Event }.

Definition emit (ev : Event) : Eff World () :=
  modify (λ w, mkWorld (fs w) (log w ++ [ev])).

Definition console_error (label : string) (e : exn) : Eff World () :=
  emit (ConsoleError label e).

(** *** [path.join] on a POSIX system *)

Definition is_slash (c : Ascii.ascii) : bool := Ascii.eqb c "/"%char.

(** The segments of a path between its separators; [cur] is the segment
    being read. *)
Fixpoint split_path (path cur : string) : list string :=
  match path with
  | EmptyString => [cur]
  | String c rest =>
      if is_slash c then cur :: split_path rest ""
      else split_path rest (cur +:+ String c "")
  end.

(** One segment in [normalizeString]; [stack] holds the segments kept so
    far, last one first.  Empty segments and [.] are skipped; [..] removes
    the last segment unless that is [..] itself or there is none, and is
    kept in that case only when the path is relative. *)
Definition push_segment (allowAboveRoot : bool) (stack : list string) (seg : string)
  : list string :=
  if String.eqb seg "" || String.eqb seg "." then stack
  else if String.eqb seg ".." then
    match stack with
    | last :: rest =>
        if String.eqb last ".."
        then (if allowAboveRoot then ".." :: stack else stack)
        else rest
    | [] => if allowAboveRoot then [".."] else []
    end
  else seg :: stack.

Fixpoint join_segments (segs : list string) : string :=
  match segs with
  | [] => ""
  | [seg] => seg
  | seg :: rest => seg +:+ "/" +:+ join_segments rest
  end.

Definition normalizeString (path : string) (allowAboveRoot : bool) : string :=
  join_segments (rev (foldl (push_segment allowAboveRoot) [] (split_path path ""))).

Definition starts_with_slash (path : string) : bool :=
  match path with String c _ => is_slash c | EmptyString => false end.

Fixpoint ends_with_slash (path : string) : bool :=
  match path with
  | EmptyString => false
  | String c EmptyString => is_slash c
  | String _ rest => ends_with_slash rest
  end.

(** [path.normalize(path)] *)
Definition normalize (path : string) : string :=
  if String.eqb path "" then "."
  else
    let isAbsolute := starts_with_slash path in
    let trailingSeparator := ends_with_slash path in
    let p := normalizeString path (negb isAbsolute) in
    if String.eqb p "" then
      (if isAbsolute then "/" else if trailingSeparator then "./" else ".")
    else
      (if isAbsolute then "/" else "") +:+ p +:+ (if trailingSeparator then "/" else "").

(** [path.join(dir, name)]: the non-empty arguments, joined by a separator
    and normalized. *)
Definition path_join (dir name : string) : string :=
  if String.eqb dir "" then (if String.eqb name "" then "." else normalize name)
  else if String.eqb name "" then normalize dir
  else normalize (dir +:+ "/" +:+ name).

(** [await audioFile.arrayBuffer()]: a string has no such method. *)
Definition arrayBuffer (e : option FormDataEntryValue) : Eff World Buffer :=
  match e with
  | Some (EntryFile f) => mret (file_bytes f)
  | _ => throw (TypeError "audioFile.arrayBuffer is not a function")
  end.

Definition writeFileSync (env : Platform) (p : string) (data : Buffer) : Eff World () :=
  match write_error env with
  | Some failure =>
      match written failure with
      | Some n => modify (λ w, mkWorld (<[p := take n data]> (fs w)) (log w))
      | None => mret ()
      end;;
      throw (SystemError (errno failure))
  | None => modify (λ w, mkWorld (<[p := data]> (fs w)) (log w))
  end.

(** [fs.unlinkSync(p)]: ENOENT when there is no such file. *)
Definition unlinkSync (p : string) : Eff World () :=
  w ← get_state;
  match fs w !! p with
  | Some _ => modify (λ w, mkWorld (delete p (fs w)) (log w))
  | None => throw (SystemError "ENOENT")
  end.

(** [await fetch(url, { method, body })]: the call is sent, then settles as
    the platform says.  The result is the response's status and body. *)
Definition fetch (env : Platform) (url method : string) (form : list Part)
  : Eff World (N * option jsval) :=
  emit (Fetch url method form);;
  match backend env with
  | FetchRejected e => throw e
  | FetchResolved st b => mret (st, b)
  end.

Definition tempFilePath (env : Platform) : string :=
  path_join (tmpdir env) ("recording-" +:+ pretty (now env) +:+ ".wav").

(** A file name: no separator in it, and not empty, [.] or [..]. *)
Fixpoint no_slash (s : string) : bool :=
  match s with
  | EmptyString => true
  | String c rest => negb (is_slash c) && no_slash rest
  end.

Definition file_name_like (name : string) : bool :=
  no_slash name
  && negb (String.eqb name "") && negb (String.eqb name ".") && negb (String.eqb name "..").

(** What [path.join(dir, name)] puts before a file name: the normalized
    directory with its separator. *)
Definition join_prefix (segs : list string) : string :=
  match segs with
  | [] => ""
  | _ => join_segments segs +:+ "/"
  end.

Definition dir_prefix (dir : string) : string :=
  if String.eqb dir "" then ""
  else (if starts_with_slash dir then "/" else "")
       +:+ join_prefix (rev (foldl (push_segment (negb (starts_with_slash dir))) []
                                   (split_path dir ""))).

(** The [try] block of [POST], lines 8-54. *)
Definition POST_try (env : Platform) (request : NextRequest) : Eff World NextResponse :=
  formData ← settle (request_formData request);
  let audioFile := FormData_get formData "audio" in
  if negb (entry_truthy audioFile) then
    mret (NextResponse_json [("error", JStr "No audio file provided")] 400)
  else
    let tempFilePath := tempFilePath env in
    buffer ← arrayBuffer audioFile;
    writeFileSync env tempFilePath buffer;;
    let formData2 := [mkPart "audio" (new_Blob [buffer] "audio/wav") "recording.wav"] in
    backendResponse ← fetch env "http://localhost:8000/process-audio" "POST" formData2;
    if negb (status_ok backendResponse.1) then
      throw (JsError ("Backend error: " +:+ pretty backendResponse.1))
    else
      responseData ← response_json backendResponse.2;
      try_catch (unlinkSync tempFilePath)
                (λ err, console_error "Error deleting temporary file:" err);;
      text_response ← get_prop responseData "text_response";
      audio_url ← get_prop responseData "audio_url";
      mret (NextResponse_json [("response", text_response); ("audioUrl", audio_url)] 200).

(** [POST]: the [try] block and its [catch], lines 55-61. *)
Definition POST (env : Platform) (request : NextRequest) : Eff World NextResponse :=
  try_catch (POST_try env request)
    (λ error,
       console_error "Error processing audio:" error;;
       mret (NextResponse_json [("error", JStr "Failed to process audio")] 500)).

(** What the framework answers for a handler that throws: status 500
    without a JSON body. *)
Definition uncaught_response : NextResponse := mkResponse 500 JUndefined.

(** The response the client sees, and the world the call leaves behind:
    the response [POST] returns, or the framework's own for a [POST] that
    throws. *)
Definition respond (env : Platform) (request : NextRequest) (w : World) : NextResponse * World :=
  match run (POST env request) w with
  | (Ok r, w') => (r, w')
  | (Throw _, w') => (uncaught_response, w')
  end.

(** *** Names for what [POST] sends and answers *)

(** The answer of the [catch] block, lines 57-60. *)
Definition failure_response : NextResponse :=
  NextResponse_json [("error", JStr "Failed to process audio")] 500.

(** The answer of lines 13-16. *)
Definition missing_audio_response : NextResponse :=
  NextResponse_json [("error", JStr "No audio file provided")] 400.

(** The answer of lines 51-54 for a backend body [v]. *)
Definition success_response (v : jsval) : NextResponse :=
  NextResponse_json [("response", prop v "text_response"); ("audioUrl", prop v "audio_url")] 200.

(** The error thrown at line 38 for a backend status (the spec's
    BoundaryError); a rejected fetch throws the exception it was rejected
    with (the spec's TransportError). *)
Definition BoundaryError (st : N) : exn := JsError ("Backend error: " +:+ pretty st).

(** The call of lines 28-35 for the bytes of the uploaded file. *)
Definition backend_call (buffer : Buffer) : Event :=
  Fetch "http://localhost:8000/process-audio" "POST"
        [mkPart "audio" (mkBlob buffer "audio/wav") "recording.wav"].

(** The world after lines 25-35: the temporary file is on disk and the
    request to the backend has been sent. *)
Definition sent (env : Platform) (buffer : Buffer) (w : World) : World :=
  mkWorld (<[tempFilePath env := buffer]> (fs w)) (log w ++ [backend_call buffer]).

(** The world after lines 44-48 on top of that: the temporary file is gone. *)
Definition cleaned (env : Platform) (buffer : Buffer) (w : World) : World :=
  mkWorld (delete (tempFilePath env) (fs w)) (log w ++ [backend_call buffer]).

(** The backend call does not yield a parsed body: the fetch is rejected,
    the status is not a success, or the body is not JSON. *)
Definition backend_fails (o : FetchOutcome) : bool :=
  match o with
  | FetchRejected _ => true
  | FetchResolved st None => true
  | FetchResolved st (Some _) => negb (status_ok st)
  end.

(** The backend keeps its side of the contract: a success status comes with
    a JSON body whose [text_response] is a non-empty string. *)
Definition backend_contract (o : FetchOutcome) : bool :=
  match o with
  | FetchRejected _ => true
  | FetchResolved st b =>
      if status_ok st
      then match b with
           | Some v => nonempty_string (prop v "text_response")
           | None => false
           end
      else true
  end.

(** The success result the spec promises: status 200 and a non-empty text. *)
Definition nonempty_result (r : NextResponse) : bool :=
  (status r =? 200)%N && nonempty_string (prop (body r) "response").

(** A result with neither text nor audio reference, and no error. *)
Definition empty_result (r : NextResponse) : bool :=
  status_ok (status r) && negb (truthy (prop (body r) "response"))
  && negb (truthy (prop (body r) "audioUrl")) && negb (truthy (prop (body r) "error")).

(** The outcomes the spec allows for relaying one capture: a result with a
    non-empty text, or a failure on the fetch to the backend (the exception
    the fetch was rejected with) or on its status (the error of line 38). *)
Definition relays_or_fails (env : Platform) (request : NextRequest) (w : World) : Prop :=
  let thrown := (run (POST_try env request) w).1 in
  (∃ r, thrown = Ok r ∧ nonempty_result r = true)
  ∨ (∃ e, backend env = FetchRejected e ∧ thrown = Throw e)
  ∨ (∃ st b, backend env = FetchResolved st b ∧ status_ok st = false
             ∧ thrown = Throw (BoundaryError st)).

(** *** Sample inputs *)

Definition sample_file : File :=
  mkFile "recording.wav" "audio/wav" [Byte.x52; Byte.x49; Byte.x46; Byte.x46].

Definition sample_request : NextRequest :=
  mkRequest (Ok [("audio", EntryFile sample_file)]).

Definition no_audio_request : NextRequest :=
  mkRequest (Ok [("note", EntryString "hello")]).

Definition sample_platform (o : FetchOutcome) : Platform :=
  mkPlatform "/tmp" 1700000000000 None o.

Definition empty_world : World := mkWorld ∅ [].


(** Answers of the backend: the two scenarios of the spec, a server error,
    an empty object under a success status, and an unreachable backend. *)
Definition backend_silence : FetchOutcome :=
  FetchResolved 200 (Some (JObj {[ "text_response" := JStr "I didn't catch that, could you repeat?";
                                    "audio_url" := JNull ]})).

Definition backend_answer : FetchOutcome :=
  FetchResolved 200 (Some (JObj {[ "text_response" := JStr "Your current plan includes 10GB of data.";
                                    "audio_url" := JStr "https://cdn.example/reply.mp3" ]})).

Definition backend_500 : FetchOutcome := FetchResolved 500 None.

Definition backend_empty_object : FetchOutcome := FetchResolved 200 (Some (JObj ∅)).

Definition backend_down : FetchOutcome := FetchRejected (TypeError "fetch failed").

Definition sample_path : string := "/tmp/recording-1700000000000.wav".

End Relay.

(** ** The Capture Client: the page component [Home] *)

Module Client.

Inductive TrackState : Type := Live | Ended.

(** The stream [getUserMedia] resolves to, with the state of its tracks. *)
Record MediaStream : Type := mkStream { stream_id : N; tracks : list TrackState }.

(** [MediaRecorder.state], for a recorder that is never paused. *)
Inductive RecordingState : Type := Inactive | Recording.

Record MediaRecorder : Type := mkRecorder { stream : MediaStream; state : RecordingState }.

Inductive Event : Type :=
| Fetch (url method : string) (form : list Relay.Part)
| ConsoleError (label : string) (e : exn)
| Play (src : jsval).              (* [new Audio(src).play()] *)

(** The component's state: the five [useState] cells, the two refs, and
    what the handlers sent, printed and played, oldest first. *)
Record Session : Type := mkSession {
  isRecording : bool;
  audioBlob : option Blob;
  response : jsval;
  isLoading : bool;
  error : option string;
  mediaRecorderRef : option MediaRecorder;
  audioChunksRef : list Blob;
  trace : list Event
}.

(** The state of the first render. *)
Definition initial : Session :=
  mkSession false None (JStr "") false None None [] [].

Definition setIsRecording (b : bool) (s : Session) : Session :=
  mkSession b (audioBlob s) (response s) (isLoading s) (error s)
            (mediaRecorderRef s) (audioChunksRef s) (trace s).

Definition setAudioBlob (b : option Blob) (s : Session) : Session :=
  mkSession (isRecording s) b (response s) (isLoading s) (error s)
            (mediaRecorderRef s) (audioChunksRef s) (trace s).

Definition setResponse (v : jsval) (s : Session) : Session :=
  mkSession (isRecording s) (audioBlob s) v (isLoading s) (error s)
            (mediaRecorderRef s) (audioChunksRef s) (trace s).

Definition setIsLoading (b : bool) (s : Session) : Session :=
  mkSession (isRecording s) (audioBlob s) (response s) b (error s)
            (mediaRecorderRef s) (audioChunksRef s) (trace s).

Definition setError (e : option string) (s : Session) : Session :=
  mkSession (isRecording s) (audioBlob s) (response s) (isLoading s) e
            (mediaRecorderRef s) (audioChunksRef s) (trace s).

Definition set_mediaRecorderRef (r : option MediaRecorder) (s : Session) : Session :=
  mkSession (isRecording s) (audioBlob s) (response s) (isLoading s) (error s)
            r (audioChunksRef s) (trace s).

Definition set_audioChunksRef (cs : list Blob) (s : Session) : Session :=
  mkSession (isRecording s) (audioBlob s) (response s) (isLoading s) (error s)
            (mediaRecorderRef s) cs (trace s).

Definition emit (ev : Event) : Eff Session () :=
  modify (λ s, mkSession (isRecording s) (audioBlob s) (response s) (isLoading s)
                         (error s) (mediaRecorderRef s) (audioChunksRef s)
                         (trace s ++ [ev])).

Definition console_error (label : string) (e : exn) : Eff Session () :=
  emit (ConsoleError label e).

(** [mediaRecorderRef.current.start()]: InvalidStateError unless inactive. *)
Definition recorder_start : Eff Session () :=
  s ← get_state;
  match mediaRecorderRef s with
  | None => throw (TypeError "Cannot read properties of null (reading 'start')")
  | Some r =>
      match state r with
      | Inactive => modify (set_mediaRecorderRef (Some (mkRecorder (stream r) Recording)))
      | Recording => throw (DOMException "InvalidStateError")
      end
  end.

(** [mediaRecorderRef.current.stop()]: InvalidStateError when inactive. *)
Definition recorder_stop : Eff Session () :=
  s ← get_state;
  match mediaRecorderRef s with
  | None => throw (TypeError "Cannot read properties of null (reading 'stop')")
  | Some r =>
      match state r with
      | Recording => modify (set_mediaRecorderRef (Some (mkRecorder (stream r) Inactive)))
      | Inactive => throw (DOMException "InvalidStateError")
      end
  end.

(** [mediaRecorderRef.current.stream.getTracks().forEach(track => track.stop())] *)
Definition stop_tracks : Eff Session () :=
  s ← get_state;
  match mediaRecorderRef s with
  | None => throw (TypeError "Cannot read properties of null (reading 'stream')")
  | Some r =>
      let st := stream r in
      modify (set_mediaRecorderRef
                (Some (mkRecorder (mkStream (stream_id st) ((λ _, Ended) <$> tracks st))
                                  (state r))))
  end.

(** [startRecording], lines 15-37.  [media] is how
    [navigator.mediaDevices.getUserMedia({ audio: true })] settles; the
    platform is taken to construct a [MediaRecorder] for any stream it
    hands out. *)
Definition startRecording (media : Outcome MediaStream) : Eff Session () :=
  try_catch
    (stream ← settle media;
     let mediaRecorder := mkRecorder stream Inactive in
     modify (set_mediaRecorderRef (Some mediaRecorder));;
     modify (set_audioChunksRef []);;
     recorder_start;;
     modify (setIsRecording true))
    (λ err,
       console_error "Error starting recording:" err;;
       modify (setError (Some "Microphone access denied. Please allow microphone access."))).

(** [mediaRecorder.ondataavailable], lines 22-24. *)
Definition ondataavailable (data : Blob) : Eff Session () :=
  modify (λ s, set_audioChunksRef (audioChunksRef s ++ [data]) s).

(** [mediaRecorder.onstop], lines 26-29. *)
Definition onstop : Eff Session () :=
  s ← get_state;
  let audioBlob := new_Blob (blob_bytes <$> audioChunksRef s) "audio/wav" in
  modify (setAudioBlob (Some audioBlob)).

(** The guard of [stopRecording]: [mediaRecorderRef.current && isRecording]. *)
Definition stop_guard (s : Session) : bool :=
  match mediaRecorderRef s with
  | Some _ => isRecording s
  | None => false
  end.

(** [stopRecording], lines 39-47. *)
Definition stopRecording : Eff Session () :=
  s ← get_state;
  if stop_guard s then
    recorder_stop;;
    modify (setIsRecording false);;
    stop_tracks
  else mret ().

(** [await fetch(url, { method, body })] in the browser. *)
Definition fetch (net : FetchOutcome) (url method : string) (form : list Relay.Part)
  : Eff Session (N * option jsval) :=
  emit (Fetch url method form);;
  match net with
  | FetchRejected e => throw e
  | FetchResolved st b => mret (st, b)
  end.

(** [handleSubmit], lines 49-84.  [net] is how the fetch to the relay
    endpoint settles. *)
Definition handleSubmit (net : FetchOutcome) : Eff Session () :=
  s ← get_state;
  match audioBlob s with
  | None => mret ()
  | Some audioBlob =>
      try_finally
        (try_catch
           (modify (setIsLoading true);;
            modify (setError None);;
            let formData := [Relay.mkPart "audio" audioBlob "recording.wav"] in
            response ← fetch net "/api/process-voice" "POST" formData;
            if negb (status_ok response.1) then
              throw (JsError ("Error: " +:+ pretty response.1))
            else
              data ← response_json response.2;
              text ← get_prop data "response";
              modify (setResponse text);;
              audioUrl ← get_prop data "audioUrl";
              if truthy audioUrl then emit (Play audioUrl) else mret ())
           (λ err,
              console_error "Error submitting audio:" err;;
              modify (setError (Some "Failed to process your request. Please try again."))))
        (setIsLoading false)
  end.

(** *** What the component renders, lines 86-163 *)

Inductive ClickHandler : Type := ClickStart | ClickStop.

Record SubmitButton : Type := mkSubmit { disabled : bool; label : string }.

Record View : Type := mkView {
  micOnClick : ClickHandler;            (* line 102 *)
  micHint : string;                     (* line 117 *)
  submitButton : option SubmitButton;   (* lines 120-128 *)
  errorBox : option string;             (* lines 130-134 *)
  responsePanel : option jsval;         (* lines 138-143, for a truthy response *)
  responseLeft : option jsnum           (* line 138, what [response && ...] leaves of a
                                           falsy response: a number is shown as text *)
}.

(** The elements the component function returns for a session. *)
Definition render (s : Session) : View :=
  mkView
    (if isRecording s then ClickStop else ClickStart)
    (if isRecording s then "Recording... Click to stop" else "Tap microphone to speak")
    (match audioBlob s with
     | Some _ =>
         if negb (isRecording s)
         then Some (mkSubmit (isLoading s)
                             (if isLoading s then "Processing..." else "Submit Recording"))
         else None
     | None => None
     end)
    (match error s with
     | Some msg => if String.eqb msg "" then None else Some msg
     | None => None
     end)
    (if truthy (response s) then Some (response s) else None)
    (if truthy (response s) then None
     else match response s with JNum n => Some n | _ => None end).



(** *** The spec's operations in terms of the handlers *)

(** The state a handler leaves, whether it returned or threw. *)
Definition exec (h : Eff Session ()) (s : Session) : Session := (run h s).2.

(** The recorder hands over recorded data, one [dataavailable] event per
    chunk, in capture order. *)
Definition deliver (data : list Blob) : Eff Session () :=
  foldr (λ d k, ondataavailable d;; k) (mret ()) data.

(** The events the recorder fires once [stop()] was called on it: the
    recorded data, then [stop]. *)
Definition recorder_finish (data : list Blob) : Eff Session () :=
  deliver data;; onstop.

(** [startCapture]: a click on the microphone button while not recording. *)
Definition startCapture (media : Outcome MediaStream) (s : Session) : Session :=
  exec (startRecording media) s.

(** [stopCapture] of the spec, completed: the call of [stopRecording]
    together with the events the recorder fires afterwards, when it was
    stopped.  The handler itself returns before those events; the session
    in between is [exec stopRecording s]. *)
Definition stopCapture (data : list Blob) (s : Session) : Session :=
  let s' := exec stopRecording s in
  if stop_guard s then exec (recorder_finish data) s' else s'.

(** [submit]: a call of [handleSubmit]. *)
Definition submit (net : FetchOutcome) (s : Session) : Session :=
  exec (handleSubmit net) s.

(** The capture a click on the submit button would send: the button is
    there only when [audioBlob && !isRecording]. *)
Definition eligible (s : Session) : option Blob :=
  match submitButton (render s) with
  | Some _ => audioBlob s
  | None => None
  end.

(** The network calls and the playbacks among the recorded events. *)
Definition is_fetch (ev : Event) : bool :=
  match ev with Fetch _ _ _ => true | _ => false end.

Definition network_calls (s : Session) : list Event := List.filter is_fetch (trace s).

Definition playbacks (s : Session) : list jsval :=
  omap (λ ev, match ev with Play src => Some src | _ => None end) (trace s).

(** The spec's rule for a submission without a capture, for one call of
    [submit]: no network call is made and a validation message is on
    screen afterwards. *)
Definition missing_payload_rule (net : FetchOutcome) (s : Session) : Prop :=
  let s' := submit net s in
  network_calls s' = network_calls s ∧ ∃ msg, errorBox (render s') = Some msg.

(** The messages the handlers put in the [error] cell. *)
Definition microphone_denied : string :=
  "Microphone access denied. Please allow microphone access.".

Definition submit_failed : string :=
  "Failed to process your request. Please try again.".

(** The request [handleSubmit] sends for a capture. *)
Definition relay_call (audioBlob : Blob) : Event :=
  Fetch "/api/process-voice" "POST" [Relay.mkPart "audio" audioBlob "recording.wav"].

(** The session after [handleSubmit] ran with a capture: the response, the
    error and what was added to the trace differ from path to path, the
    rest does not. *)
Definition submitted (s : Session) (capture : Blob)
  (resp : jsval) (err : option string) (added : list Event) : Session :=
  mkSession (isRecording s) (Some capture) resp false err
            (mediaRecorderRef s) (audioChunksRef s)
            (trace s ++ relay_call capture :: added).

(** *** Sample inputs *)

Definition microphone : MediaStream := mkStream 1 [Live].

Definition chunk_a : Blob := mkBlob [Byte.x52; Byte.x49] "audio/webm".
Definition chunk_b : Blob := mkBlob [Byte.x46; Byte.x46] "audio/webm".

(** A session that holds one finished capture. *)
Definition ready : Session :=
  stopCapture [chunk_a] (startCapture (Ok microphone) initial).

(** What [fetch] resolves to in the browser for an answer of the relay. *)
Definition relayed (r : NextResponse) : FetchOutcome :=
  FetchResolved (status r) (Some (body r)).

End Client.


(** ** One call of the relay, as a relation *)

Module RelayRuns.
Import Relay.

(** The upload cannot be read or stored: the form is rejected, the [audio]
    field is a non-empty text instead of a file, or the write fails. *)
Definition upload_unusable (env : Platform) (request : NextRequest) : bool :=
  match request_formData request with
  | Throw _ => true
  | Ok fd =>
      match FormData_get fd "audio" with
      | Some (EntryString text) => negb (String.eqb text "")
      | Some (EntryFile _) => bool_decide (is_Some (write_error env))
      | None => false
      end
  end.

(** The files after a call that stopped before its fetch: as before the
    call, except that a write that failed after opening the temporary file
    leaves the bytes it got to. *)
Definition fs_after_abort (env : Platform) (request : NextRequest) (w : World)
  : gmap string Buffer :=
  match request_formData request with
  | Ok fd =>
      match FormData_get fd "audio", write_error env with
      | Some (EntryFile f), Some failure =>
          match written failure with
          | Some n => <[tempFilePath env := take n (file_bytes f)]> (fs w)
          | None => fs w
          end
      | _, _ => fs w
      end
  | Throw _ => fs w
  end.

(** A parsed body whose properties cannot be read. *)
Definition nullish (v : jsval) : bool :=
  match v with JUndefined | JNull => true | _ => false end.

(** The ways one call of [POST] can go, each with the answer it gives and
    the world it leaves, read off the handler top to bottom. *)
Inductive Run (env : Platform) (request : NextRequest) (w : World)
  : NextResponse → World → Prop :=
| RunNoAudio fd :
    (* lines 12-17: no [audio] field, or an empty text *)
    request_formData request = Ok fd →
    entry_truthy (FormData_get fd "audio") = false →
    Run env request w missing_audio_response w
| RunAborted e :
    (* an exception before the fetch: nothing was sent *)
    upload_unusable env request = true →
    Run env request w failure_response
        (mkWorld (fs_after_abort env request w)
                 (log w ++ [ConsoleError "Error processing audio:" e]))
| RunBackendFailed fd f e :
    (* an exception of the fetch, of line 38 or of [json()]: no unlink *)
    request_formData request = Ok fd →
    FormData_get fd "audio" = Some (EntryFile f) →
    write_error env = None →
    backend_fails (backend env) = true →
    Run env request w failure_response
        (mkWorld (<[tempFilePath env := file_bytes f]> (fs w))
                 (log w ++ [backend_call (file_bytes f);
                            ConsoleError "Error processing audio:" e]))
| RunBodyUnreadable fd f st v e :
    (* a parsed body that is null: the unlink ran, the property read threw *)
    request_formData request = Ok fd →
    FormData_get fd "audio" = Some (EntryFile f) →
    write_error env = None →
    backend env = FetchResolved st (Some v) →
    status_ok st = true →
    nullish v = true →
    Run env request w failure_response
        (mkWorld (delete (tempFilePath env) (fs w))
                 (log w ++ [backend_call (file_bytes f);
                            ConsoleError "Error processing audio:" e]))
| RunAnswered fd f st v :
    (* lines 41-54 *)
    request_formData request = Ok fd →
    FormData_get fd "audio" = Some (EntryFile f) →
    write_error env = None →
    backend env = FetchResolved st (Some v) →
    status_ok st = true →
    nullish v = false →
    Run env request w (success_response v)
        (mkWorld (delete (tempFilePath env) (fs w))
                 (log w ++ [backend_call (file_bytes f)])).

(** The calls to the backend among what the handler sent and printed. *)
Definition is_backend_call (ev : Event) : bool :=
  match ev with Fetch _ _ _ => true | ConsoleError _ _ => false end.

Definition backend_calls (w : World) : list Event := List.filter is_backend_call (log w).

End RelayRuns.

(** ** The page over time *)

Module Page.
Import Client.

(** [handleSubmit] up to its [await], lines 50-64: the guard, the two
    state updates and the request. *)
Definition handleSubmit_begin : Eff Session () :=
  s ← get_state;
  match audioBlob s with
  | None => mret ()
  | Some audioBlob =>
      modify (setIsLoading true);;
      modify (setError None);;
      emit (Fetch "/api/process-voice" "POST"
                  [Relay.mkPart "audio" audioBlob "recording.wav"])
  end.

(** [handleSubmit] from its [await] on, lines 61-83, once the fetch has
    settled as [net]. *)
Definition handleSubmit_resume (net : FetchOutcome) : Eff Session () :=
  try_finally
    (try_catch
       (response ← match net with
                   | FetchRejected e => throw e
                   | FetchResolved st b => mret (st, b)
                   end;
        if negb (status_ok response.1) then
          throw (JsError ("Error: " +:+ pretty response.1))
        else
          data ← response_json response.2;
          text ← get_prop data "response";
          modify (setResponse text);;
          audioUrl ← get_prop data "audioUrl";
          if truthy audioUrl then emit (Play audioUrl) else mret ())
       (λ err,
          console_error "Error submitting audio:" err;;
          modify (setError (Some "Failed to process your request. Please try again."))))
    (setIsLoading false).

(** What happens to the component, one uninterrupted step at a time: a
    call of [startRecording] at the moment [getUserMedia] settles (the
    handler does nothing before its [await]); a call of [stopRecording];
    an event of the recorder that runs one of the callbacks of lines
    22-29; a call of [handleSubmit] up to its [await], and its resumption
    when the fetch has settled, with any other steps in between; or a call
    of [handleSubmit] whose fetch settles before anything else happens. *)
Inductive Action : Type :=
| CallStart (media : Outcome MediaStream)
| CallStop
| DataAvailable (data : Blob)
| Stopped
| CallSubmit (net : FetchOutcome)
| SubmitBegin
| SubmitSettle (net : FetchOutcome).

Definition handler (a : Action) : Eff Session () :=
  match a with
  | CallStart media => startRecording media
  | CallStop => stopRecording
  | DataAvailable data => ondataavailable data
  | Stopped => onstop
  | CallSubmit net => handleSubmit net
  | SubmitBegin => handleSubmit_begin
  | SubmitSettle net => handleSubmit_resume net
  end.

(** The session after a sequence of steps, first step first. *)
Definition after (actions : list Action) (s : Session) : Session :=
  foldl (λ s a, exec (handler a) s) s actions.

Definition recorder_recording (s : Session) : bool :=
  match mediaRecorderRef s with
  | Some r => match state r with Recording => true | Inactive => false end
  | None => false
  end.

Definition track_ended (t : TrackState) : bool :=
  match t with Ended => true | Live => false end.

(** The microphone is released: a recorder that is not recording has no
    live track. *)
Definition microphone_released (s : Session) : bool :=
  match mediaRecorderRef s with
  | Some r =>
      match state r with
      | Recording => true
      | Inactive => forallb track_ended (tracks (stream r))
      end
  | None => true
  end.

Definition capture_is_wav (s : Session) : bool :=
  match audioBlob s with
  | Some b => String.eqb (blob_type b) "audio/wav"
  | None => true
  end.

(** What holds of the session between any two steps. *)
Definition consistent (s : Session) : Prop :=
  isRecording s = recorder_recording s
  ∧ microphone_released s = true
  ∧ capture_is_wav s = true.

(** The answers on which [handleSubmit] takes its [catch] block: a
    rejected fetch, a non-success status, a body that is not JSON, and a
    body that is null. *)
Definition submit_fails (net : FetchOutcome) : bool :=
  match net with
  | FetchRejected _ => true
  | FetchResolved st b =>
      negb (status_ok st)
      || match b with
         | None | Some JNull | Some JUndefined => true
         | Some _ => false
         end
  end.

(** The form of [handleSubmit] as the relay's [request.formData()] reads
    it: every part arrives as a file with its filename, its blob's type and
    its blob's bytes. *)
Definition uploaded (form : list Relay.Part) : Relay.NextRequest :=
  Relay.mkRequest
    (Ok ((λ p, (Relay.part_name p,
                Relay.EntryFile (Relay.mkFile (Relay.part_filename p)
                                              (blob_type (Relay.part_blob p))
                                              (blob_bytes (Relay.part_blob p)))))
         <$> form)).

(** One submission through the relay: the relay handles the uploaded form
    in world [w], and [handleSubmit] receives its answer.  Gives the
    session and the relay's world afterwards. *)
Definition submit_via_relay (env : Relay.Platform) (w : Relay.World) (s : Session)
  : Session * Relay.World :=
  match audioBlob s with
  | None =>
      (* no request leaves the page: the outcome given here is never looked at *)
      (submit (FetchRejected (TypeError "Failed to fetch")) s, w)
  | Some capture =>
      let '(answer, w') :=
        Relay.respond env (uploaded [Relay.mkPart "audio" capture "recording.wav"]) w in
      (submit (relayed answer) s, w')
  end.

End Page.

(** * Properties of the relay *)

Section RelayAnswers.
Import Relay.

(** What a reader finds in the answer of lines 51-54: the two fields as
    they come back from JSON, and no error. *)
Lemma success_response_fields v :
  prop (body (success_response v)) "response" = as_received (prop v "text_response")
  ∧ prop (body (success_response v)) "audioUrl" = as_received (prop v "audio_url")
  ∧ prop (body (success_response v)) "error" = JUndefined.
Proof.
  unfold success_response, NextResponse_json, JSON_object, as_received. cbn [body].
  generalize (prop v "text_response") (prop v "audio_url").
  intros t a. cbn [omap list_omap fst snd].
  destruct (is_undefined t), (is_undefined a); split_and!; reflexivity.
Qed.

(** A string goes through JSON unchanged. *)
Lemma as_received_string v : nonempty_string v = true → as_received v = v.
Proof. by destruct v. Qed.

Variables (env : Platform) (request : NextRequest) (w : World).

(** The [catch] block turns every exception of the [try] block into the
    same answer, after one line on the console. *)
Lemma respond_of_throw e w' :
  run (POST_try env request) w = (Throw e, w') →
  respond env request w =
    (failure_response, mkWorld (fs w') (log w' ++ [ConsoleError "Error processing audio:" e])).
Proof. intros H. unfold respond, POST, try_catch. cbn [run]. by rewrite H. Qed.

Lemma respond_of_ok r w' :
  run (POST_try env request) w = (Ok r, w') → respond env request w = (r, w').
Proof. intros H. unfold respond, POST, try_catch. cbn [run]. by rewrite H. Qed.

(** The same two facts for [POST] itself, before the framework sees it. *)
Lemma POST_of_throw e w' :
  run (POST_try env request) w = (Throw e, w') →
  run (POST env request) w =
    (Ok failure_response,
     mkWorld (fs w') (log w' ++ [ConsoleError "Error processing audio:" e])).
Proof. intros H. unfold POST, try_catch. cbn [run]. by rewrite H. Qed.

Lemma POST_of_ok r w' :
  run (POST_try env request) w = (Ok r, w') → run (POST env request) w = (Ok r, w').
Proof. intros H. unfold POST, try_catch. cbn [run]. by rewrite H. Qed.

(** [POST] itself never throws. *)
Lemma POST_returns : ∃ r w', run (POST env request) w = (Ok r, w').
Proof.
  unfold POST, try_catch. cbn [run].
  destruct (run (POST_try env request) w) as [[r|e] w']; eauto.
Qed.

(** Without an [audio] field the handler answers at once. *)
Lemma POST_try_missing fd :
  request_formData request = Ok fd →
  entry_truthy (FormData_get fd "audio") = false →
  run (POST_try env request) w = (Ok missing_audio_response, w).
Proof. intros Hform Hmiss. unfold POST_try. cbn. rewrite Hform. cbn. by rewrite Hmiss. Qed.

End RelayAnswers.

Section RelayFacts.
Import Relay.

Variables (env : Platform) (request : NextRequest) (w : World).
Variables (fd : FormData) (f : File).
Hypothesis Hform : request_formData request = Ok fd.
Hypothesis Hfile : FormData_get fd "audio" = Some (EntryFile f).
Hypothesis Hwrite : write_error env = None.

Ltac relay_start :=
  unfold POST_try; cbn; rewrite Hform; cbn; rewrite Hfile; cbn;
  unfold writeFileSync, Relay.fetch; rewrite Hwrite; cbn.

Ltac relay_world :=
  unfold sent, cleaned, backend_call, new_Blob; cbn; rewrite app_nil_r.

Lemma POST_try_rejected e :
  backend env = FetchRejected e →
  run (POST_try env request) w = (Throw e, sent env (file_bytes f) w).
Proof. intros Hb. relay_start. rewrite Hb. cbn. by relay_world. Qed.

Lemma POST_try_status st b :
  backend env = FetchResolved st b → status_ok st = false →
  run (POST_try env request) w = (Throw (BoundaryError st), sent env (file_bytes f) w).
Proof. intros Hb Hst. relay_start. rewrite Hb. cbn. rewrite Hst. cbn. by relay_world. Qed.

Lemma POST_try_unparsable st :
  backend env = FetchResolved st None → status_ok st = true →
  run (POST_try env request) w =
    (Throw SyntaxError, sent env (file_bytes f) w).
Proof. intros Hb Hst. relay_start. rewrite Hb. cbn. rewrite Hst. cbn. by relay_world. Qed.

(** With a parsed body the temporary file is unlinked before the body's
    properties are read. *)
Lemma POST_try_parsed st v :
  backend env = FetchResolved st (Some v) → status_ok st = true →
  run (POST_try env request) w =
    (match v with
     | JUndefined =>
         Throw (TypeError "Cannot read properties of undefined (reading 'text_response')")
     | JNull =>
         Throw (TypeError "Cannot read properties of null (reading 'text_response')")
     | _ => Ok (success_response v)
     end, cleaned env (file_bytes f) w).
Proof.
  intros Hb Hst. relay_start. rewrite Hb. cbn. rewrite Hst. cbn.
  unfold unlinkSync. cbn. rewrite lookup_insert_eq. cbn.
  rewrite delete_insert_eq. relay_world. by destruct v.
Qed.

(** The sibling paths of the clean-up, side by side: a parsed body reaches
    the unlink of lines 44-48, a failed backend call does not. *)
Lemma temp_file_removed_after_parse st v :
  backend env = FetchResolved st (Some v) → status_ok st = true →
  fs (respond env request w).2 !! tempFilePath env = None.
Proof.
  intros Hb Hst. pose proof (POST_try_parsed st v Hb Hst) as H.
  destruct v; first [ rewrite (respond_of_throw _ _ _ _ _ H)
                    | rewrite (respond_of_ok _ _ _ _ _ H) ];
    cbn; apply lookup_delete_eq.
Qed.

Lemma temp_file_left_after_failure :
  backend_fails (backend env) = true →
  fs (respond env request w).2 !! tempFilePath env = Some (file_bytes f).
Proof.
  intros Hfail. destruct (backend env) as [e|st [v|]] eqn:Hb; cbn in Hfail.
  - rewrite (respond_of_throw _ _ _ _ _ (POST_try_rejected e Hb)). cbn.
    apply lookup_insert_eq.
  - apply negb_true_iff in Hfail.
    rewrite (respond_of_throw _ _ _ _ _ (POST_try_status st _ Hb Hfail)). cbn.
    apply lookup_insert_eq.
  - destruct (status_ok st) eqn:Hst.
    + rewrite (respond_of_throw _ _ _ _ _ (POST_try_unparsable st Hb Hst)). cbn.
      apply lookup_insert_eq.
    + rewrite (respond_of_throw _ _ _ _ _ (POST_try_status st _ Hb Hst)). cbn.
      apply lookup_insert_eq.
Qed.

(** C4: with the audio on disk, a non-success status of the backend makes
    the [try] block throw the error that carries the status, and a rejected
    fetch makes it throw the rejection; either way the [catch] block makes
    [POST] return, and the client receive, [{ error: "Failed to process
    audio" }] under the non-success status 500. *)
Theorem relay_error_shape :
  let answer := mkResponse 500 (JObj {[ "error" := JStr "Failed to process audio" ]}) in
  let thrown := (run (POST_try env request) w).1 in
  (∀ st b, backend env = FetchResolved st b → status_ok st = false →
     thrown = Throw (BoundaryError st)
     ∧ (run (POST env request) w).1 = Ok answer
     ∧ (respond env request w).1 = answer
     ∧ status_ok (status answer) = false)
  ∧ (∀ e, backend env = FetchRejected e →
     thrown = Throw e
     ∧ (run (POST env request) w).1 = Ok answer
     ∧ (respond env request w).1 = answer
     ∧ status_ok (status answer) = false).
Proof.
  intros answer thrown. subst answer thrown. split.
  - intros st b Hb Hst. pose proof (POST_try_status st b Hb Hst) as H.
    rewrite (respond_of_throw _ _ _ _ _ H), (POST_of_throw _ _ _ _ _ H), H. done.
  - intros e Hb. pose proof (POST_try_rejected e Hb) as H.
    rewrite (respond_of_throw _ _ _ _ _ H), (POST_of_throw _ _ _ _ _ H), H. done.
Qed.

End RelayFacts.

Section RelayWrite.
Import Relay.

(** A write that fails: the file may have been opened, the write's error
    is thrown, and the backend is not called. *)
Lemma POST_try_write_failed (env : Relay.Platform) request w fd f failure :
  request_formData request = Ok fd →
  FormData_get fd "audio" = Some (EntryFile f) →
  write_error env = Some failure →
  run (POST_try env request) w =
    (Throw (SystemError (errno failure)),
     mkWorld (match written failure with
              | Some n => <[tempFilePath env := take n (file_bytes f)]> (fs w)
              | None => fs w
              end) (log w)).
Proof.
  intros Hform Hget Hwrite.
  unfold POST_try. cbn. rewrite Hform. cbn. rewrite Hget. cbn.
  unfold writeFileSync. rewrite Hwrite. cbn.
  destruct (written failure); cbn; [done|by destruct w].
Qed.

End RelayWrite.

Section RelayContract.
Import Relay.

Variables (env : Platform) (request : NextRequest) (w : World).
Variables (fd : FormData) (f : File).
Hypothesis Hform : request_formData request = Ok fd.
Hypothesis Hfile : FormData_get fd "audio" = Some (EntryFile f).

(** C2, amended: for an uploaded audio file and a backend that keeps its
    contract (a success status comes with a JSON body whose [text_response]
    is a non-empty string): when the temporary file is written, relaying
    returns a result with a non-empty text, or fails on the fetch or on the
    backend's status, and a backend body under a success status is
    answered with status 200 and that [text_response] as its text; when
    the temporary file cannot be written, relaying fails with the error of
    the write and [POST] returns the failure answer. *)
Theorem relay_result_under_contract :
  backend_contract (backend env) = true →
  (write_error env = None →
     relays_or_fails env request w
     ∧ ∀ st v, backend env = FetchResolved st (Some v) → status_ok st = true →
         (run (POST env request) w).1 = Ok (success_response v)
         ∧ status (success_response v) = 200%N
         ∧ prop (body (success_response v)) "response" = prop v "text_response"
         ∧ nonempty_string (prop v "text_response") = true)
  ∧ (∀ failure, write_error env = Some failure →
       (run (POST_try env request) w).1 = Throw (SystemError (errno failure))
       ∧ (run (POST env request) w).1 = Ok failure_response).
Proof.
  intros Hc. split.
  - intros Hwrite.
    assert (∀ st v, backend env = FetchResolved st (Some v) → status_ok st = true →
              run (POST_try env request) w
              = (Ok (success_response v), cleaned env (file_bytes f) w)
              ∧ prop (body (success_response v)) "response" = prop v "text_response"
              ∧ nonempty_string (prop v "text_response") = true) as Hsuccess.
    { intros st v Hb Hst. rewrite Hb in Hc. cbn in Hc. rewrite Hst in Hc.
      pose proof (POST_try_parsed env request w fd f Hform Hfile Hwrite st v Hb Hst) as Hrun.
      destruct (success_response_fields v) as (Htext & _).
      rewrite (as_received_string _ Hc) in Htext.
      split_and!; [|done..]. by destruct v. }
    split.
    + unfold relays_or_fails.
      destruct (backend env) as [e|st b] eqn:Hb.
      * right; left. exists e.
        by rewrite (POST_try_rejected env request w fd f Hform Hfile Hwrite e Hb).
      * destruct (status_ok st) eqn:Hst.
        -- cbn in Hc. rewrite Hst in Hc. destruct b as [v|]; [|done]. left.
           destruct (Hsuccess st v eq_refl Hst) as (Hrun & Htext & Hnonempty).
           rewrite Hrun. eexists; split; [done|].
           unfold nonempty_result. by rewrite Htext, Hnonempty.
        -- right; right. exists st, b.
           by rewrite (POST_try_status env request w fd f Hform Hfile Hwrite st b Hb Hst).
    + intros st v Hb Hst. destruct (Hsuccess st v Hb Hst) as (Hrun & Htext & Hnonempty).
      by rewrite (POST_of_ok _ _ _ _ _ Hrun).
  - intros failure Hwrite.
    pose proof (POST_try_write_failed env request w fd f failure Hform Hfile Hwrite) as Hrun.
    by rewrite (POST_of_throw _ _ _ _ _ Hrun), Hrun.
Qed.

End RelayContract.

Section RelayClaims.
Import Relay.

(** Once the [audio] field has passed the check of line 12, every failure
    of the backend call makes the [try] block throw. *)
Lemma POST_try_backend_failure env request w fd :
  request_formData request = Ok fd →
  entry_truthy (FormData_get fd "audio") = true →
  backend_fails (backend env) = true →
  ∃ e w', run (POST_try env request) w = (Throw e, w').
Proof.
  intros Hform Hpresent Hfail.
  destruct (FormData_get fd "audio") as [[text|f]|] eqn:Hget; [| |done].
  - (* a text field: no [arrayBuffer] method *)
    do 2 eexists.
    unfold POST_try. cbn. rewrite Hform. cbn. rewrite Hget. cbn.
    cbn in Hpresent. rewrite Hpresent. done.
  - destruct (write_error env) as [failure|] eqn:Hwrite.
    + do 2 eexists. by eapply POST_try_write_failed.
    + destruct (backend env) as [e|st [v|]] eqn:Hb; cbn in Hfail.
      * do 2 eexists. by eapply POST_try_rejected.
      * apply negb_true_iff in Hfail. do 2 eexists. by eapply POST_try_status.
      * destruct (status_ok st) eqn:Hst; do 2 eexists.
        -- by eapply POST_try_unparsable.
        -- by eapply POST_try_status.
Qed.

(** So the answer is that of the [catch] block. *)
Lemma respond_backend_failure env request w fd :
  request_formData request = Ok fd →
  entry_truthy (FormData_get fd "audio") = true →
  backend_fails (backend env) = true →
  (respond env request w).1 = failure_response.
Proof.
  intros Hform Hpresent Hfail.
  destruct (POST_try_backend_failure env request w fd Hform Hpresent Hfail) as (e & w' & H).
  by rewrite (respond_of_throw _ _ _ _ _ H).
Qed.

Lemma POST_backend_failure env request w fd :
  request_formData request = Ok fd →
  entry_truthy (FormData_get fd "audio") = true →
  backend_fails (backend env) = true →
  (run (POST env request) w).1 = Ok failure_response.
Proof.
  intros Hform Hpresent Hfail.
  destruct (POST_try_backend_failure env request w fd Hform Hpresent Hfail) as (e & w' & H).
  by rewrite (POST_of_throw _ _ _ _ _ H).
Qed.

(** C9: two calls that both carry an [audio] field and both fail at the
    backend, for whichever reason (rejected fetch, non-success status, body
    that is not JSON), leave through the [catch] block of [POST], which
    returns the same answer to the client both times: status 500 with body
    [{ error: "Failed to process audio" }]. *)
Theorem relay_failures_indistinguishable
  (env1 env2 : Platform) (request1 request2 : NextRequest) (w1 w2 : World)
  (fd1 fd2 : FormData) :
  request_formData request1 = Ok fd1 →
  request_formData request2 = Ok fd2 →
  entry_truthy (FormData_get fd1 "audio") = true →
  entry_truthy (FormData_get fd2 "audio") = true →
  backend_fails (backend env1) = true →
  backend_fails (backend env2) = true →
  (run (POST env1 request1) w1).1 = (run (POST env2 request2) w2).1
  ∧ (run (POST env1 request1) w1).1
    = Ok (mkResponse 500 (JObj {[ "error" := JStr "Failed to process audio" ]}))
  ∧ (respond env1 request1 w1).1 = (respond env2 request2 w2).1
  ∧ (respond env1 request1 w1).1
    = mkResponse 500 (JObj {[ "error" := JStr "Failed to process audio" ]}).
Proof.
  intros Hf1 Hf2 Hp1 Hp2 Hb1 Hb2.
  rewrite (respond_backend_failure env1 request1 w1 fd1 Hf1 Hp1 Hb1).
  rewrite (respond_backend_failure env2 request2 w2 fd2 Hf2 Hp2 Hb2).
  rewrite (POST_backend_failure env1 request1 w1 fd1 Hf1 Hp1 Hb1).
  rewrite (POST_backend_failure env2 request2 w2 fd2 Hf2 Hp2 Hb2).
  done.
Qed.

(** C1: the backend answers 500 to the sample upload.  The file was not
    there before the call, the handler throws the error of line 38 and
    answers 500, and the temporary file is still on disk afterwards with
    the uploaded bytes. *)
Theorem temp_file_left_after_backend_500 :
  let env := sample_platform backend_500 in
  let after := respond env sample_request empty_world in
  tempFilePath env = sample_path
  ∧ fs empty_world !! sample_path = None
  ∧ (run (POST_try env sample_request) empty_world).1 = Throw (BoundaryError 500)
  ∧ after.1 = failure_response
  ∧ fs after.2 !! sample_path = Some (file_bytes sample_file).
Proof. vm_compute. done. Qed.

(** The same upload with a backend that answers: the unlink is reached and
    the file is gone. *)
Example temp_file_removed_after_answer :
  fs (respond (sample_platform backend_answer) sample_request empty_world).2 !! sample_path
  = None.
Proof. vm_compute. done. Qed.

(** C2, as stated, fails for a backend that answers 200 with an empty
    object: the relay answers 200 with neither text nor audio reference nor
    error, which is none of the outcomes the claim allows. *)
Lemma relay_empty_success :
  (respond (sample_platform backend_empty_object) sample_request empty_world).1
  = mkResponse 200 (JObj ∅)
  ∧ empty_result (respond (sample_platform backend_empty_object) sample_request empty_world).1
    = true
  ∧ ¬ relays_or_fails (sample_platform backend_empty_object) sample_request empty_world.
Proof.
  split_and!; [by vm_compute..|].
  intros [(r & Hr & Hnonempty) | [(e & Hb & _) | (st & b & Hb & Hst & _)]].
  - vm_compute in Hr. injection Hr as <-. by vm_compute in Hnonempty.
  - by vm_compute in Hb.
  - vm_compute in Hb. injection Hb as <- <-. by vm_compute in Hst.
Qed.

Lemma relay_result_under_contract_witness :
  backend_contract (backend (sample_platform backend_silence)) = true
  ∧ relays_or_fails (sample_platform backend_silence) sample_request empty_world.
Proof.
  split; [reflexivity|].
  apply (proj1 (relay_result_under_contract (sample_platform backend_silence) sample_request
                  empty_world [("audio", EntryFile sample_file)] sample_file
                  eq_refl eq_refl eq_refl) eq_refl).
Defined.

Lemma relay_error_shape_witness :
  (respond (sample_platform backend_500) sample_request empty_world).1
  = mkResponse 500 (JObj {[ "error" := JStr "Failed to process audio" ]})
  ∧ (run (POST_try (sample_platform backend_down) sample_request) empty_world).1
    = Throw (TypeError "fetch failed").
Proof.
  split.
  - apply (proj1 (relay_error_shape (sample_platform backend_500) sample_request
                    empty_world [("audio", EntryFile sample_file)] sample_file
                    eq_refl eq_refl eq_refl) 500%N None eq_refl eq_refl).
  - apply (proj2 (relay_error_shape (sample_platform backend_down) sample_request
                    empty_world [("audio", EntryFile sample_file)] sample_file
                    eq_refl eq_refl eq_refl) (TypeError "fetch failed") eq_refl).
Defined.

Lemma relay_failures_indistinguishable_witness :
  (respond (sample_platform backend_500) sample_request empty_world).1
  = (respond (sample_platform backend_down) sample_request empty_world).1.
Proof.
  apply (relay_failures_indistinguishable
           (sample_platform backend_500) (sample_platform backend_down)
           sample_request sample_request empty_world empty_world
           [("audio", EntryFile sample_file)] [("audio", EntryFile sample_file)]);
    reflexivity.
Defined.

End RelayClaims.

(** * Properties of the capture client *)

Section ClientFacts.
Import Client.

Lemma exec_deliver data s :
  run (deliver data) s = (Ok (), set_audioChunksRef (audioChunksRef s ++ data) s).
Proof.
  revert s. induction data as [|d data IH]; intros s.
  - cbn. rewrite app_nil_r. by destruct s.
  - unfold deliver. cbn [foldr]. fold (deliver data).
    unfold mbind, Eff_bind, eff_bind. cbn [run].
    unfold ondataavailable, modify. cbn [run]. rewrite IH. cbn.
    by rewrite <- app_assoc.
Qed.

Lemma exec_recorder_finish data s :
  exec (recorder_finish data) s =
    setAudioBlob (Some (new_Blob (blob_bytes <$> (audioChunksRef s ++ data)) "audio/wav"))
                 (set_audioChunksRef (audioChunksRef s ++ data) s).
Proof.
  unfold exec, recorder_finish, mbind, Eff_bind, eff_bind. cbn [run].
  rewrite exec_deliver. done.
Qed.

(** A granted microphone: a fresh recorder in state recording, an empty
    buffer, and the recording flag set. *)
Lemma startCapture_granted stream s :
  run (startRecording (Ok stream)) s =
    (Ok (), mkSession true (audioBlob s) (response s) (isLoading s) (error s)
                      (Some (mkRecorder stream Recording)) [] (trace s)).
Proof. done. Qed.

(** A refused microphone: one line on the console and the message. *)
Lemma startCapture_denied e s :
  run (startRecording (Throw e)) s =
    (Ok (), mkSession (isRecording s) (audioBlob s) (response s) (isLoading s)
                      (Some microphone_denied) (mediaRecorderRef s) (audioChunksRef s)
                      (trace s ++ [ConsoleError "Error starting recording:" e])).
Proof. done. Qed.

Lemma stopRecording_idle s :
  stop_guard s = false → run stopRecording s = (Ok (), s).
Proof. intros H. unfold stopRecording. cbn. by rewrite H. Qed.

(** [stopRecording] on a session that records with [stream]. *)
Lemma stopRecording_recording stream s :
  isRecording s = true →
  mediaRecorderRef s = Some (mkRecorder stream Recording) →
  run stopRecording s =
    (Ok (), mkSession false (audioBlob s) (response s) (isLoading s) (error s)
              (Some (mkRecorder (mkStream (stream_id stream) ((λ _, Ended) <$> tracks stream))
                                Inactive))
              (audioChunksRef s) (trace s)).
Proof.
  intros Hrec Href. unfold stopRecording, stop_guard. cbn. rewrite Href, Hrec. cbn.
  rewrite Href. cbn. done.
Qed.

Lemma stopCapture_recording stream data s :
  isRecording s = true →
  mediaRecorderRef s = Some (mkRecorder stream Recording) →
  stopCapture data s =
    mkSession false
      (Some (new_Blob (blob_bytes <$> (audioChunksRef s ++ data)) "audio/wav"))
      (response s) (isLoading s) (error s)
      (Some (mkRecorder (mkStream (stream_id stream) ((λ _, Ended) <$> tracks stream))
                        Inactive))
      (audioChunksRef s ++ data) (trace s).
Proof.
  intros Hrec Href. unfold stopCapture, stop_guard. rewrite Href, Hrec.
  rewrite exec_recorder_finish.
  unfold exec, stopRecording, stop_guard. cbn. rewrite Href, Hrec. cbn.
  rewrite Href. cbn. done.
Qed.

(** One start-stop cycle from any session: the cell holds the blob built
    from the chunks of this recording, whatever it held before. *)
Lemma capture_cycle stream data s :
  stopCapture data (startCapture (Ok stream) s) =
    mkSession false (Some (new_Blob (blob_bytes <$> data) "audio/wav"))
      (response s) (isLoading s) (error s)
      (Some (mkRecorder (mkStream (stream_id stream) ((λ _, Ended) <$> tracks stream))
                        Inactive))
      data (trace s).
Proof.
  unfold startCapture, exec. rewrite startCapture_granted. cbn [snd].
  by rewrite (stopCapture_recording stream data).
Qed.

(** *** [handleSubmit], path by path *)

Section Submit.
Variables (s : Session) (capture : Blob).
Hypothesis Hcapture : audioBlob s = Some capture.

Ltac submit_start :=
  unfold handleSubmit, try_finally, try_catch, mbind, Eff_bind, eff_bind;
  cbn [run get_state]; rewrite Hcapture; cbn.

Lemma handleSubmit_rejected e :
  run (handleSubmit (FetchRejected e)) s =
    (Ok (), submitted s capture (response s) (Some submit_failed)
                      [ConsoleError "Error submitting audio:" e]).
Proof.
  submit_start. unfold submitted, relay_call. rewrite Hcapture.
  by rewrite <- app_assoc.
Qed.

Lemma handleSubmit_status st b :
  status_ok st = false →
  run (handleSubmit (FetchResolved st b)) s =
    (Ok (), submitted s capture (response s) (Some submit_failed)
              [ConsoleError "Error submitting audio:" (JsError ("Error: " +:+ pretty st))]).
Proof.
  intros Hst. submit_start. rewrite Hst. cbn.
  unfold submitted, relay_call. rewrite Hcapture. by rewrite <- app_assoc.
Qed.

Lemma handleSubmit_unparsable st :
  status_ok st = true →
  run (handleSubmit (FetchResolved st None)) s =
    (Ok (), submitted s capture (response s) (Some submit_failed)
              [ConsoleError "Error submitting audio:" SyntaxError]).
Proof.
  intros Hst. submit_start. rewrite Hst. cbn.
  unfold submitted, relay_call. rewrite Hcapture. by rewrite <- app_assoc.
Qed.

(** A parsed body that is an object: the text goes to the [response] cell,
    and the audio reference is played when it is truthy. *)
Lemma handleSubmit_object st props :
  status_ok st = true →
  let data := JObj props in
  run (handleSubmit (FetchResolved st (Some data))) s =
    (Ok (), submitted s capture (prop data "response") None
              (if truthy (prop data "audioUrl") then [Play (prop data "audioUrl")] else [])).
Proof.
  intros Hst data. submit_start. rewrite Hst. cbn.
  unfold submitted, relay_call. rewrite Hcapture.
  destruct (truthy (default JUndefined (props !! "audioUrl"))); cbn;
    [by rewrite <- app_assoc | done].
Qed.

(** Every path returns, and leaves the loading flag cleared and the
    capture and the recording flag as they were. *)
Lemma handleSubmit_settles net :
  ∃ resp err added, run (handleSubmit net) s = (Ok (), submitted s capture resp err added).
Proof.
  destruct net as [e|st b].
  - eauto using handleSubmit_rejected.
  - destruct (status_ok st) eqn:Hst; [|eauto using handleSubmit_status].
    destruct b as [data|]; [|eauto using handleSubmit_unparsable].
    destruct data;
      try (submit_start; rewrite Hst; cbn; unfold submitted, relay_call;
           rewrite Hcapture; rewrite <- ?app_assoc; cbn; by eauto).
    eauto using handleSubmit_object.
Qed.

End Submit.

Lemma playbacks_app s added :
  omap (λ ev, match ev with Play src => Some src | _ => None end) (trace s ++ added)
  = playbacks s ++ omap (λ ev, match ev with Play src => Some src | _ => None end) added.
Proof. unfold playbacks. apply omap_app. Qed.

(** C7: while no recording is in progress, [stopRecording] returns without
    touching the session, and no recorder event follows, so [stopCapture]
    leaves every cell, both refs and the trace as they were. *)
Theorem stopCapture_not_recording_noop (s : Session) (data : list Blob) :
  isRecording s = false →
  run stopRecording s = (Ok (), s) ∧ stopCapture data s = s.
Proof.
  intros Hidle.
  assert (stop_guard s = false) as Hguard.
  { unfold stop_guard. rewrite Hidle. by destruct (mediaRecorderRef s). }
  split; [by apply stopRecording_idle|].
  unfold stopCapture, exec. by rewrite Hguard, stopRecording_idle.
Qed.

(** C8: when microphone access is refused, [startRecording] puts its
    message on screen and leaves the recording flag, the capture, the
    recorder and the buffer as they were, so a session that was not
    recording is still not recording; when access is granted, the recording
    flag is set, the recorder is recording on the granted stream, the
    buffer starts empty and holds exactly the chunks delivered since. *)
Theorem startCapture_outcomes (s : Session) :
  (∀ e, let s' := startCapture (Throw e) s in
        isRecording s' = isRecording s
        ∧ errorBox (render s') = Some microphone_denied
        ∧ audioBlob s' = audioBlob s
        ∧ mediaRecorderRef s' = mediaRecorderRef s
        ∧ audioChunksRef s' = audioChunksRef s)
  ∧ (∀ stream data, let s' := startCapture (Ok stream) s in
        isRecording s' = true
        ∧ micOnClick (render s') = ClickStop
        ∧ mediaRecorderRef s' = Some (mkRecorder stream Recording)
        ∧ audioChunksRef s' = []
        ∧ audioChunksRef (exec (deliver data) s') = data
        ∧ error s' = error s).
Proof.
  split.
  - intros e s'. subst s'. unfold startCapture, exec.
    rewrite startCapture_denied. done.
  - intros stream data s'. subst s'. unfold startCapture, exec.
    rewrite startCapture_granted, exec_deliver. done.
Qed.

(** C5, amended: the session has one [audioBlob] cell, and starting a
    new recording does not clear it.  After start, stop, start, stop: the
    first capture is eligible after the first stop; it stays in the cell
    when the second recording starts, where nothing is eligible while the
    recording runs; it is the one offered when the second [stopRecording]
    has returned and the recorder's stop event has not yet fired; and once
    that event has fired the cell holds, and the submit button sends, the
    second capture only. *)
Theorem capture_replaced_at_stop_event
  (s : Session) (stream1 stream2 : MediaStream) (data1 data2 : list Blob) :
  let first := new_Blob (blob_bytes <$> data1) "audio/wav" in
  let second := new_Blob (blob_bytes <$> data2) "audio/wav" in
  let s1 := startCapture (Ok stream1) s in
  let s2 := stopCapture data1 s1 in
  let s3 := startCapture (Ok stream2) s2 in
  let s4 := exec stopRecording s3 in
  let s5 := exec (recorder_finish data2) s4 in
  eligible s2 = Some first
  ∧ audioBlob s3 = Some first
  ∧ eligible s3 = None
  ∧ eligible s4 = Some first
  ∧ s5 = stopCapture data2 s3
  ∧ eligible s5 = Some second
  ∧ audioBlob s5 = Some second.
Proof.
  intros first second s1 s2 s3 s4 s5. subst first second s1 s2 s3 s4 s5.
  rewrite capture_cycle.
  set (s2 := mkSession false _ _ _ _ _ _ _).
  assert (run (startRecording (Ok stream2)) s2
          = (Ok (), mkSession true (audioBlob s2) (response s2) (isLoading s2) (error s2)
                      (Some (mkRecorder stream2 Recording)) [] (trace s2))) as Hstart
    by apply startCapture_granted.
  unfold startCapture, exec. rewrite Hstart. cbn [snd].
  set (s3 := mkSession true _ _ _ _ _ _ _).
  rewrite (stopRecording_recording stream2 s3 eq_refl eq_refl). cbn [snd].
  assert (stopCapture data2 s3
          = (run (recorder_finish data2)
                 (mkSession false (audioBlob s3) (response s3) (isLoading s3) (error s3)
                    (Some (mkRecorder (mkStream (stream_id stream2)
                                                ((λ _, Ended) <$> tracks stream2)) Inactive))
                    (audioChunksRef s3) (trace s3))).2) as Hfused.
  { unfold stopCapture, exec. cbn [stop_guard s3 mediaRecorderRef isRecording].
    by rewrite (stopRecording_recording stream2 s3 eq_refl eq_refl). }
  rewrite <- Hfused, (stopCapture_recording stream2 data2 s3 eq_refl eq_refl).
  done.
Qed.

(** C6: for a success answer whose body is an object, [handleSubmit] puts
    the body's text in the [response] cell, which the page shows whenever
    it is a non-empty string; it starts playback of the audio reference
    once when the reference is truthy (a non-empty string), and starts no
    playback when the reference is missing, null or empty. *)
Theorem submit_success_renders_and_plays
  (s : Session) (capture : Blob) (st : N) (props : gmap string jsval) :
  audioBlob s = Some capture →
  status_ok st = true →
  let data := JObj props in
  let s' := submit (FetchResolved st (Some data)) s in
  response s' = prop data "response"
  ∧ error s' = None
  ∧ (nonempty_string (prop data "response") = true →
     responsePanel (render s') = Some (prop data "response"))
  ∧ (truthy (prop data "audioUrl") = true →
     playbacks s' = playbacks s ++ [prop data "audioUrl"])
  ∧ (truthy (prop data "audioUrl") = false → playbacks s' = playbacks s).
Proof.
  intros Hcapture Hst data s'. subst s' data. unfold submit, exec.
  rewrite (handleSubmit_object s capture Hcapture st props Hst). cbn [snd].
  split_and!; try done.
  - unfold render, submitted. cbn [responsePanel response].
    destruct (prop (JObj props) "response"); try done.
    unfold truthy, nonempty_string. by intros ->.
  - intros Hurl. cbn in Hurl |- *. rewrite Hurl.
    unfold playbacks at 1, submitted. cbn [trace]. rewrite playbacks_app. done.
  - intros Hurl. cbn in Hurl |- *. rewrite Hurl.
    unfold playbacks at 1, submitted. cbn [trace]. rewrite playbacks_app. cbn.
    by rewrite app_nil_r.
Qed.


Lemma stopCapture_not_recording_noop_witness :
  isRecording initial = false ∧ stopCapture [chunk_a] initial = initial.
Proof.
  split; [reflexivity|].
  apply (stopCapture_not_recording_noop initial [chunk_a]). reflexivity.
Defined.

Lemma submit_success_renders_and_plays_witness :
  playbacks
    (submit (FetchResolved 200 (Some (JObj {[ "response" := JStr "Your current plan includes 10GB of data.";
                                               "audioUrl" := JStr "https://cdn.example/reply.mp3" ]})))
            ready)
  = [JStr "https://cdn.example/reply.mp3"].
Proof.
  pose proof (submit_success_renders_and_plays ready
                (mkBlob [Byte.x52; Byte.x49] "audio/wav") 200%N
                {[ "response" := JStr "Your current plan includes 10GB of data.";
                   "audioUrl" := JStr "https://cdn.example/reply.mp3" ]}
                eq_refl eq_refl) as H.
  cbv zeta in H. destruct H as (_ & _ & _ & Hplay & _).
  exact (Hplay eq_refl).
Defined.



(** C5, as stated, fails at the sample recordings: the second start keeps
    the first capture, and when the second [stopRecording] has returned
    the page offers, and a submit sends, the first capture and not the
    second. *)
Lemma first_capture_offered_after_second_stop :
  let first := mkBlob [Byte.x52; Byte.x49] "audio/wav" in
  let second := mkBlob [Byte.x46; Byte.x46] "audio/wav" in
  let s3 := startCapture (Ok microphone) ready in
  let s4 := exec stopRecording s3 in
  audioBlob s3 = Some first
  ∧ eligible s4 = Some first
  ∧ eligible s4 ≠ Some second
  ∧ network_calls (submit (FetchRejected (TypeError "Failed to fetch")) s4)
    = [relay_call first]
  ∧ eligible (exec (recorder_finish [chunk_b]) s4) = Some second.
Proof. vm_compute. split_and!; done. Qed.

End ClientFacts.

(** * The client and the relay together *)

Section EndToEnd.
Import Relay Client.

(** C3, amended: without a capture [handleSubmit] returns at its guard: it
    makes no network call, changes nothing in the session and puts no
    message on screen.  The validation message belongs to the relay: a
    request without an [audio] field is answered with status 400 and
    [{ error: "No audio file provided" }], before any file is written and
    any call is made to the backend. *)
Theorem missing_payload_stops_at_guards :
  (∀ (s : Session) (net : FetchOutcome),
     audioBlob s = None →
     run (handleSubmit net) s = (Ok (), s)
     ∧ network_calls (submit net s) = network_calls s
     ∧ errorBox (render (submit net s)) = errorBox (render s))
  ∧ (∀ (env : Platform) (request : NextRequest) (w : World) (fd : FormData),
     request_formData request = Ok fd →
     entry_truthy (FormData_get fd "audio") = false →
     respond env request w
     = (mkResponse 400 (JObj {[ "error" := JStr "No audio file provided" ]}), w)).
Proof.
  split.
  - intros s net Hnone.
    assert (run (handleSubmit net) s = (Ok (), s)) as H.
    { unfold handleSubmit, mbind, Eff_bind, eff_bind. cbn [run get_state].
      by rewrite Hnone. }
    unfold submit, exec. by rewrite H.
  - intros env request w fd Hform Hmissing.
    by rewrite (respond_of_ok _ _ _ _ _ (POST_try_missing env request w fd Hform Hmissing)).
Qed.

Lemma missing_payload_stops_at_guards_witness :
  submit backend_down initial = initial
  ∧ respond (sample_platform backend_answer) no_audio_request empty_world
    = (mkResponse 400 (JObj {[ "error" := JStr "No audio file provided" ]}), empty_world).
Proof.
  split.
  - pose proof (proj1 missing_payload_stops_at_guards initial backend_down eq_refl) as [H _].
    unfold submit, exec. rewrite H. reflexivity.
  - apply (proj2 missing_payload_stops_at_guards (sample_platform backend_answer)
             no_audio_request empty_world [("note", EntryString "hello")]);
      reflexivity.
Defined.

(** C3, as stated, fails in the first render: a submit without a capture
    makes no network call, but no message is on screen afterwards. *)
Lemma submit_without_capture_shows_nothing :
  audioBlob initial = None
  ∧ errorBox (render (submit backend_down initial)) = None
  ∧ ¬ missing_payload_rule backend_down initial.
Proof.
  split_and!; [done..|].
  intros [_ [msg Hmsg]]. by vm_compute in Hmsg.
Qed.

(** The two scenarios of the spec, from the backend's answer through the
    relay to the page. *)
Example scenario_silence :
  let answer := (respond (sample_platform backend_silence) sample_request empty_world).1 in
  let s' := submit (relayed answer) ready in
  responsePanel (render s') = Some (JStr "I didn't catch that, could you repeat?")
  ∧ playbacks s' = []
  ∧ errorBox (render s') = None.
Proof. by vm_compute. Qed.

Example scenario_question :
  let answer := (respond (sample_platform backend_answer) sample_request empty_world).1 in
  let s' := submit (relayed answer) ready in
  responsePanel (render s') = Some (JStr "Your current plan includes 10GB of data.")
  ∧ playbacks s' = [JStr "https://cdn.example/reply.mp3"]
  ∧ errorBox (render s') = None.
Proof. by vm_compute. Qed.

End EndToEnd.

(** * Further properties of the relay *)

Section RelayRunFacts.
Import Relay RelayRuns.

Lemma backend_calls_app w added :
  List.filter is_backend_call (log w ++ added)
  = backend_calls w ++ List.filter is_backend_call added.
Proof. unfold backend_calls. apply List.filter_app. Qed.

(** Every call of [POST] goes one of the five ways of [Run]. *)
Lemma respond_is_run (env : Platform) (request : NextRequest) (w : World) :
  Run env request w (respond env request w).1 (respond env request w).2.
Proof.
  assert (∀ e, upload_unusable env request = true →
               run (POST_try env request) w
               = (Throw e, mkWorld (fs_after_abort env request w) (log w)) →
               Run env request w (respond env request w).1 (respond env request w).2)
    as Haborted.
  { intros e Hbad Hrun. rewrite (respond_of_throw _ _ _ _ _ Hrun). cbn [fst snd fs log].
    by apply RunAborted. }
  destruct (request_formData request) as [fd|e0] eqn:Hform.
  2:{ eapply Haborted.
      - unfold upload_unusable. by rewrite Hform.
      - unfold POST_try, fs_after_abort. cbn. rewrite Hform. by destruct w. }
  destruct (entry_truthy (FormData_get fd "audio")) eqn:Hpresent.
  2:{ rewrite (respond_of_ok _ _ _ _ _ (POST_try_missing env request w fd Hform Hpresent)).
      by eapply RunNoAudio. }
  destruct (FormData_get fd "audio") as [[text|f]|] eqn:Hget; [| |done].
  { eapply Haborted.
    - unfold upload_unusable. by rewrite Hform, Hget.
    - unfold POST_try, fs_after_abort. cbn. rewrite Hform. cbn. rewrite Hget. cbn.
      cbn in Hpresent. rewrite Hpresent. by destruct w. }
  destruct (write_error env) as [failure|] eqn:Hwrite.
  { eapply Haborted.
    - unfold upload_unusable. rewrite Hform, Hget, Hwrite. by apply bool_decide_eq_true.
    - rewrite (POST_try_write_failed env request w fd f failure Hform Hget Hwrite).
      unfold fs_after_abort. by rewrite Hform, Hget, Hwrite. }
  assert (∀ e, backend_fails (backend env) = true →
               run (POST_try env request) w = (Throw e, sent env (file_bytes f) w) →
               Run env request w (respond env request w).1 (respond env request w).2)
    as Hfailed.
  { intros e Hfail Hrun. rewrite (respond_of_throw _ _ _ _ _ Hrun). cbn [fst snd].
    unfold sent. cbn [fs log]. rewrite <- app_assoc. by eapply RunBackendFailed. }
  destruct (backend env) as [e|st [v|]] eqn:Hb.
  - eapply Hfailed; [done|]. by eapply POST_try_rejected.
  - destruct (status_ok st) eqn:Hst.
    + pose proof (POST_try_parsed env request w fd f Hform Hget Hwrite st v Hb Hst) as Hrun.
      destruct (nullish v) eqn:Hnull.
      * destruct v; try done;
          rewrite (respond_of_throw _ _ _ _ _ Hrun); cbn [fst snd];
          unfold cleaned; cbn [fs log]; rewrite <- app_assoc;
          by eapply RunBodyUnreadable.
      * destruct v; try done;
          rewrite (respond_of_ok _ _ _ _ _ Hrun); cbn [fst snd];
          by eapply RunAnswered.
    + eapply Hfailed; [by cbn; rewrite Hst|]. by eapply POST_try_status.
  - destruct (status_ok st) eqn:Hst.
    + eapply Hfailed; [done|]. by eapply POST_try_unparsable.
    + eapply Hfailed; [done|]. by eapply POST_try_status.
Qed.

Lemma string_app_cons (x : Ascii.ascii) (a b : string) :
  String x a +:+ b = String x (a +:+ b).
Proof. done. Qed.

Lemma string_app_nil (b : string) : "" +:+ b = b.
Proof. done. Qed.

Ltac string_simpl := rewrite ?string_app_cons, ?string_app_nil; simpl.

Lemma string_app_assoc (a b c : string) : (a +:+ b) +:+ c = a +:+ b +:+ c.
Proof. induction a as [|x a IH]; string_simpl; [done|]. by rewrite IH. Qed.

Lemma string_app_empty_r (a : string) : a +:+ "" = a.
Proof. induction a as [|x a IH]; string_simpl; [done|]. by rewrite IH. Qed.

Lemma string_app_not_empty (a b : string) : b ≠ "" → a +:+ b ≠ "".
Proof. intros Hb. by destruct a. Qed.

Lemma no_slash_app (a b : string) : no_slash (a +:+ b) = no_slash a && no_slash b.
Proof.
  induction a as [|x a IH]; string_simpl; [done|].
  rewrite IH. by destruct (is_slash x).
Qed.

Lemma split_path_no_slash name cur :
  no_slash name = true → split_path name cur = [cur +:+ name].
Proof.
  revert cur. induction name as [|c name IH]; intros cur Hname; simpl.
  - by rewrite string_app_empty_r.
  - simpl in Hname. apply andb_true_iff in Hname as [Hc Hname].
    apply negb_true_iff in Hc. rewrite Hc, (IH _ Hname).
    by rewrite string_app_assoc, string_app_cons, string_app_nil.
Qed.

Lemma split_path_file dir name cur :
  no_slash name = true →
  split_path (dir +:+ "/" +:+ name) cur = split_path dir cur ++ [name].
Proof.
  intros Hname. revert cur. induction dir as [|c dir IH]; intros cur; string_simpl.
  - by rewrite (split_path_no_slash name "" Hname).
  - destruct (is_slash c); by rewrite IH.
Qed.

Lemma push_file_name allow stack name :
  file_name_like name = true → push_segment allow stack name = name :: stack.
Proof.
  unfold file_name_like, push_segment. intros H.
  repeat (apply andb_true_iff in H as [H ?]).
  by repeat match goal with
            | Hn : negb _ = true |- _ => apply negb_true_iff in Hn; rewrite Hn
            end.
Qed.

Lemma join_segments_snoc segs name :
  join_segments (segs ++ [name]) = join_prefix segs +:+ name.
Proof.
  induction segs as [|a segs IH]; [done|].
  destruct segs as [|b segs].
  - simpl. by rewrite string_app_assoc.
  - change (join_segments ((a :: b :: segs) ++ [name]))
      with (a +:+ "/" +:+ join_segments ((b :: segs) ++ [name])).
    rewrite IH. unfold join_prefix.
    change (join_segments (a :: b :: segs)) with (a +:+ "/" +:+ join_segments (b :: segs)).
    by rewrite !string_app_assoc.
Qed.

Lemma ends_with_slash_no_slash name : no_slash name = true → ends_with_slash name = false.
Proof.
  induction name as [|c name IH]; [done|]. simpl. intros H.
  apply andb_true_iff in H as [Hc Hname]. apply negb_true_iff in Hc.
  destruct name; [done|]. by apply IH.
Qed.

Lemma ends_with_slash_app a name :
  name ≠ "" → ends_with_slash (a +:+ name) = ends_with_slash name.
Proof.
  intros Hname. induction a as [|c a IH]; [done|].
  string_simpl. destruct (a +:+ name) eqn:Heq; [|done].
  by destruct (string_app_not_empty a name Hname).
Qed.

Lemma file_name_like_facts name :
  file_name_like name = true →
  no_slash name = true ∧ name ≠ "" ∧ starts_with_slash name = false.
Proof.
  unfold file_name_like. intros H. repeat (apply andb_true_iff in H as [H ?]).
  split_and!; [done| |].
  - intros ->. done.
  - destruct name as [|c name]; [done|]. simpl in *.
    apply andb_true_iff in H as [Hc _]. by apply negb_true_iff in Hc.
Qed.

(** [path.join] of a directory and a file name: what the directory
    normalizes to, then the name as it is. *)
Lemma path_join_file dir name :
  file_name_like name = true → path_join dir name = dir_prefix dir +:+ name.
Proof.
  intros Hlike. destruct (file_name_like_facts name Hlike) as (Hslash & Hne & Hstart).
  assert (String.eqb name "" = false) as Hne' by (by apply String.eqb_neq).
  unfold path_join, dir_prefix. rewrite Hne'.
  destruct (String.eqb dir "") eqn:Hdir.
  - unfold normalize. rewrite Hne', Hstart, (ends_with_slash_no_slash name Hslash).
    unfold normalizeString. rewrite (split_path_no_slash name "" Hslash).
    simpl. rewrite (push_file_name _ _ _ Hlike). simpl.
    rewrite Hne'. by rewrite string_app_empty_r.
  - apply String.eqb_neq in Hdir.
    assert (String.eqb (dir +:+ "/" +:+ name) "" = false) as Hjoined.
    { apply String.eqb_neq. by destruct dir. }
    assert (starts_with_slash (dir +:+ "/" +:+ name) = starts_with_slash dir) as Habs
      by (by destruct dir).
    assert (ends_with_slash (dir +:+ "/" +:+ name) = false) as Htrail.
    { rewrite <- string_app_assoc, (ends_with_slash_app _ name Hne).
      by apply ends_with_slash_no_slash. }
    unfold normalize. rewrite Hjoined, Habs, Htrail.
    unfold normalizeString. rewrite (split_path_file dir name "" Hslash), foldl_app.
    simpl. rewrite (push_file_name _ _ _ Hlike). simpl.
    rewrite join_segments_snoc.
    assert (String.eqb (join_prefix
              (rev (foldl (push_segment (negb (starts_with_slash dir))) []
                          (split_path dir ""))) +:+ name) "" = false) as ->.
    { apply String.eqb_neq. by apply string_app_not_empty. }
    by rewrite string_app_empty_r, !string_app_assoc.
Qed.

Lemma no_slash_pretty_N_go (x : N) (s : string) :
  no_slash s = true → no_slash (pretty_N_go x s) = true.
Proof.
  revert s. induction (N.lt_wf_0 x) as [x _ IH]; intros s Hs.
  assert (x = 0 ∨ 0 < x)%N as [->|Hpos] by lia; [by rewrite pretty_N_go_0|].
  rewrite pretty_N_go_step by done. apply IH.
  - by apply N.div_lt.
  - simpl. rewrite Hs. unfold pretty_N_char. by repeat case_match.
Qed.

(** The name of the temporary file is a file name. *)
Lemma temp_name_like (n : N) :
  file_name_like ("recording-" +:+ pretty n +:+ ".wav") = true.
Proof.
  assert (no_slash (pretty n) = true) as Hdigits.
  { unfold pretty, pretty_N. case_decide; [done|]. by apply no_slash_pretty_N_go. }
  unfold file_name_like. rewrite !no_slash_app, Hdigits. done.
Qed.

Lemma tempFilePath_file env :
  tempFilePath env = dir_prefix (tmpdir env) +:+ "recording-" +:+ pretty (now env) +:+ ".wav".
Proof. unfold tempFilePath. by rewrite path_join_file by apply temp_name_like. Qed.

Lemma string_app_length (s t : string) :
  String.length (s +:+ t) = String.length s + String.length t.
Proof. induction s as [|a s IH]; simpl; [done|]. by rewrite IH. Qed.

Lemma string_app_inv_tail (s1 s2 t : string) : s1 +:+ t = s2 +:+ t → s1 = s2.
Proof.
  revert s2. induction s1 as [|a s1 IH]; intros [|b s2] H.
  - done.
  - apply (f_equal String.length) in H.
    rewrite !string_app_length in H. simpl in H. lia.
  - apply (f_equal String.length) in H.
    rewrite !string_app_length in H. simpl in H. lia.
  - simpl in H. injection H as -> H. f_equal. by apply IH.
Qed.

Lemma POST_answers (env : Platform) (request : NextRequest) (w : World) :
  run (POST env request) w = (Ok (respond env request w).1, (respond env request w).2).
Proof. unfold respond. by destruct (POST_returns env request w) as (r & w' & ->). Qed.

Lemma fs_after_abort_frame (env : Platform) (request : NextRequest) (w : World) p :
  p ≠ tempFilePath env → fs_after_abort env request w !! p = fs w !! p.
Proof.
  intros Hp. unfold fs_after_abort.
  repeat case_match; try done. by rewrite lookup_insert_ne.
Qed.

(** X1: [POST] never throws, and what it returns is one of three answers:
    status 400 with the missing-audio message, status 500 with the failure
    message, or status 200 with the two fields of a backend body that came
    under a success status, as they come back from JSON: a string, a
    boolean, null or a finite number as it is, an infinity as null, an
    undefined field left out. *)
Theorem relay_answers (env : Platform) (request : NextRequest) (w : World) :
  let answer := (respond env request w).1 in
  (run (POST env request) w).1 = Ok answer
  ∧ (answer = mkResponse 400 (JObj {[ "error" := JStr "No audio file provided" ]})
     ∨ answer = mkResponse 500 (JObj {[ "error" := JStr "Failed to process audio" ]})
     ∨ ∃ st v, backend env = FetchResolved st (Some v) ∧ status_ok st = true
               ∧ status answer = 200%N
               ∧ prop (body answer) "response" = as_received (prop v "text_response")
               ∧ prop (body answer) "audioUrl" = as_received (prop v "audio_url")).
Proof.
  intros answer. subst answer. split.
  - by rewrite POST_answers.
  - pose proof (respond_is_run env request w) as Hrun.
    destruct (respond env request w) as [answer w']. cbn [fst snd] in *.
    inversion Hrun; subst; [by left | by right; left..|].
    right; right. exists st, v.
    destruct (success_response_fields v) as (? & ? & _). done.
Qed.

(** X2: one call of [POST] sends at most one request to the backend, and
    the request it sends carries the bytes of the uploaded file, as the
    part [audio] named [recording.wav] with type [audio/wav]. *)
Theorem relay_sends_at_most_once (env : Platform) (request : NextRequest) (w : World) :
  let w' := (respond env request w).2 in
  backend_calls w' = backend_calls w
  ∨ ∃ fd f, request_formData request = Ok fd
            ∧ FormData_get fd "audio" = Some (EntryFile f)
            ∧ backend_calls w'
              = backend_calls w
                ++ [Fetch "http://localhost:8000/process-audio" "POST"
                          [mkPart "audio" (mkBlob (file_bytes f) "audio/wav") "recording.wav"]].
Proof.
  intros w'. subst w'. pose proof (respond_is_run env request w) as Hrun.
  destruct (respond env request w) as [answer w']. cbn [fst snd] in *.
  inversion Hrun as [fd Hform Hmiss Ha Hw|e Hunusable Ha Hw|fd f e Hform Hget Hwrite Hfail Ha Hw
                    |fd f st v e Hform Hget Hwrite Hb Hst Hnull Ha Hw
                    |fd f st v Hform Hget Hwrite Hb Hst Hnull Ha Hw];
    subst.
  - by left.
  - left. unfold backend_calls at 1. cbn [log]. rewrite backend_calls_app. cbn.
    by rewrite app_nil_r.
  - right. exists fd, f. split_and!; [done..|].
    unfold backend_calls at 1. cbn [log]. by rewrite backend_calls_app.
  - right. exists fd, f. split_and!; [done..|].
    unfold backend_calls at 1. cbn [log]. by rewrite backend_calls_app.
  - right. exists fd, f. split_and!; [done..|].
    unfold backend_calls at 1. cbn [log]. by rewrite backend_calls_app.
Qed.

(** X3: of the paths handed to the [fs] module, the only one a call of
    [POST] writes or removes is its own temporary file, [path.join] of the
    temporary directory and the file name, normalized as [path.join] does;
    the file under any other path is as before. *)
Theorem relay_touches_only_its_temp_file
  (env : Platform) (request : NextRequest) (w : World) (p : string) :
  p ≠ tempFilePath env →
  fs (respond env request w).2 !! p = fs w !! p.
Proof.
  intros Hp. pose proof (respond_is_run env request w) as Hrun.
  destruct (respond env request w) as [answer w']. cbn [fst snd] in *.
  inversion Hrun; subst; cbn [fs]; try done.
  - by apply fs_after_abort_frame.
  - by rewrite lookup_insert_ne.
  - by rewrite lookup_delete_ne.
  - by rewrite lookup_delete_ne.
Qed.

Lemma relay_touches_only_its_temp_file_witness :
  fs (respond (sample_platform backend_500) sample_request
              (mkWorld {[ "/tmp/notes.txt" := [Byte.x52] ]} [])).2 !! "/tmp/notes.txt"
  = Some [Byte.x52].
Proof.
  rewrite (relay_touches_only_its_temp_file (sample_platform backend_500) sample_request
             (mkWorld {[ "/tmp/notes.txt" := [Byte.x52] ]} []) "/tmp/notes.txt").
  - reflexivity.
  - by vm_compute.
Defined.



Section Upload.
Variables (env : Platform) (request : NextRequest) (w : World).
Variables (fd : FormData) (f : File).
Hypothesis Hform : request_formData request = Ok fd.
Hypothesis Hfile : FormData_get fd "audio" = Some (EntryFile f).
Hypothesis Hwrite : write_error env = None.



End Upload.



(** X7: on one machine, uploads handled at different milliseconds have
    different temporary files, and a call never changes the temporary file
    of an upload handled at another millisecond. *)
Theorem relay_leaves_other_uploads
  (env env' : Platform) (request : NextRequest) (w : World) :
  tmpdir env = tmpdir env' →
  now env ≠ now env' →
  tempFilePath env ≠ tempFilePath env'
  ∧ fs (respond env request w).2 !! tempFilePath env' = fs w !! tempFilePath env'.
Proof.
  intros Hdir Hnow.
  assert (tempFilePath env' ≠ tempFilePath env) as Hne.
  { rewrite !tempFilePath_file, Hdir. intros Heq.
    do 2 apply (inj (String.app _)) in Heq.
    apply string_app_inv_tail in Heq. apply (inj pretty) in Heq. done. }
  split; [done|].
  pose proof (respond_is_run env request w) as Hrun.
  destruct (respond env request w) as [answer w']. cbn [fst snd] in *.
  inversion Hrun; subst; cbn [fs]; try done.
  - by apply fs_after_abort_frame.
  - by rewrite lookup_insert_ne.
  - by rewrite lookup_delete_ne.
  - by rewrite lookup_delete_ne.
Qed.

Lemma relay_leaves_other_uploads_witness :
  tempFilePath (sample_platform backend_500)
  ≠ tempFilePath (mkPlatform "/tmp" 1700000000001 None backend_500).
Proof.
  apply (relay_leaves_other_uploads (sample_platform backend_500)
           (mkPlatform "/tmp" 1700000000001 None backend_500) sample_request empty_world);
    [reflexivity | by vm_compute].
Defined.

End RelayRunFacts.

(** * Further properties of the page *)

Section PageFacts.
Import Client Page.

Lemma tracks_all_ended (ts : list TrackState) :
  forallb track_ended ((λ _, Ended) <$> ts) = true.
Proof. induction ts as [|t ts IH]; [done|]. cbn. exact IH. Qed.

(** What [handleSubmit] adds to the trace after its request holds no
    second request. *)
Lemma handleSubmit_adds s capture net :
  audioBlob s = Some capture →
  ∃ resp err added,
    run (handleSubmit net) s = (Ok (), submitted s capture resp err added)
    ∧ List.filter is_fetch added = [].
Proof.
  intros Hcapture. destruct net as [e|st b].
  - rewrite (handleSubmit_rejected s capture Hcapture). eauto.
  - destruct (status_ok st) eqn:Hst.
    2:{ rewrite (handleSubmit_status s capture Hcapture st b Hst). eauto. }
    destruct b as [data|].
    2:{ rewrite (handleSubmit_unparsable s capture Hcapture st Hst). eauto. }
    destruct data as [| |b|n|text|xs|props].
    7:{ pose proof (handleSubmit_object s capture Hcapture st props Hst) as H.
        cbv zeta in H. rewrite H. do 3 eexists. split; [done|].
        by destruct (truthy (prop (JObj props) "audioUrl")). }
    all: unfold handleSubmit, try_finally, try_catch, mbind, Eff_bind, eff_bind;
      cbn [run get_state]; rewrite Hcapture; cbn; rewrite Hst; cbn;
      unfold submitted, relay_call; rewrite ?Hcapture; rewrite <- ?app_assoc; cbn;
      do 3 eexists; (split; [reflexivity|done]).
Qed.

(** [handleSubmit] up to its [await]: with a capture, the loading flag is
    set, the error cleared and the request sent. *)
Lemma handleSubmit_begin_run s :
  run handleSubmit_begin s =
    (Ok (), match audioBlob s with
            | None => s
            | Some capture =>
                mkSession (isRecording s) (audioBlob s) (response s) true None
                          (mediaRecorderRef s) (audioChunksRef s)
                          (trace s ++ [relay_call capture])
            end).
Proof.
  unfold handleSubmit_begin, mbind, Eff_bind, eff_bind. cbn [run get_state].
  destruct (audioBlob s) eqn:Hcapture; cbn; by rewrite ?Hcapture.
Qed.

(** [handleSubmit] from its [await] on: it returns on every path, with the
    loading flag cleared; the cells it does not write are as before. *)
Lemma handleSubmit_resume_settles net s :
  ∃ resp err added,
    run (handleSubmit_resume net) s =
      (Ok (), mkSession (isRecording s) (audioBlob s) resp false err
                        (mediaRecorderRef s) (audioChunksRef s) (trace s ++ added)).
Proof.
  unfold handleSubmit_resume, try_finally, try_catch, mbind, Eff_bind, eff_bind.
  cbn [run].
  destruct net as [e|st b]; cbn; [by eauto|].
  destruct (status_ok st); cbn; [|by eauto].
  destruct b as [data|]; cbn; [|by eauto].
  destruct data as [| |b|n|text|xs|props]; cbn; try (by eauto);
    try (exists JUndefined, (error s), []; by rewrite app_nil_r).
  destruct (truthy (default JUndefined (props !! "audioUrl"))); cbn; [by eauto|].
  exists (default JUndefined (props !! "response")), (error s), [].
  by rewrite app_nil_r.
Qed.

(** The two halves make up [handleSubmit]: with a capture, a call whose
    fetch settles before anything else happens is the first half followed
    by the second.  (Without a capture the call returns at its guard and
    nothing is left to resume.) *)
Lemma handleSubmit_in_two_steps net s :
  is_Some (audioBlob s) →
  run (handleSubmit net) s = run (handleSubmit_begin;; handleSubmit_resume net) s.
Proof.
  intros [capture Hcapture].
  unfold handleSubmit, handleSubmit_begin, handleSubmit_resume, Client.fetch,
    try_finally, try_catch, mbind, Eff_bind, eff_bind.
  cbn [run get_state]. rewrite Hcapture. cbn.
  destruct net as [e|st b]; cbn; [done|].
  destruct (status_ok st); cbn; [|done].
  destruct b as [data|]; cbn; [|done].
  destruct data as [| |b|n|text|xs|props]; cbn; done.
Qed.

(** One step keeps the session consistent, and its handler returns. *)
Lemma handler_keeps_consistent a s :
  consistent s →
  (run (handler a) s).1 = Ok () ∧ consistent (exec (handler a) s).
Proof.
  intros (Hrec & Hmic & Hwav).
  destruct a as [[stream|e]| |data| |net| |net]; unfold exec; cbn [handler].
  - rewrite startCapture_granted. done.
  - rewrite startCapture_denied. done.
  - destruct (stop_guard s) eqn:Hguard.
    + unfold stop_guard in Hguard.
      destruct (mediaRecorderRef s) as [[stream st]|] eqn:Href; [|done].
      unfold recorder_recording in Hrec. rewrite Href in Hrec. cbn in Hrec.
      destruct st; [by rewrite Hguard in Hrec|].
      rewrite (stopRecording_recording stream s Hguard Href).
      split; [done|]. unfold consistent, recorder_recording, microphone_released.
      cbn. split_and!; try done. apply tracks_all_ended.
    + by rewrite (stopRecording_idle s Hguard).
  - done.
  - done.
  - destruct (audioBlob s) as [capture|] eqn:Hcapture.
    + destruct (handleSubmit_settles s capture Hcapture net) as (resp & err & added & ->).
      split; [done|]. unfold consistent, capture_is_wav in *.
      rewrite Hcapture in Hwav. done.
    + unfold handleSubmit, mbind, Eff_bind, eff_bind. cbn [run get_state].
      rewrite Hcapture. done.
  - rewrite handleSubmit_begin_run. split; [done|]. cbn [snd].
    destruct (audioBlob s) eqn:Hcapture; [|done].
    unfold consistent, recorder_recording, microphone_released, capture_is_wav in *.
    cbn. by rewrite Hcapture in Hwav.
  - by destruct (handleSubmit_resume_settles net s) as (resp & err & added & ->).
Qed.

Lemma after_snoc actions a s :
  after (actions ++ [a]) s = exec (handler a) (after actions s).
Proof. unfold after. by rewrite foldl_app. Qed.

Lemma after_consistent actions : consistent (after actions initial).
Proof.
  induction actions as [|a actions IH] using rev_ind; [done|].
  rewrite after_snoc. by apply handler_keeps_consistent.
Qed.

(** X8: whatever handlers are called and whatever events the recorder
    fires, in any order, from the first render on, with other steps free
    to run while a [handleSubmit] waits for its fetch: the recording flag
    is set exactly when the recorder is recording, a recorder that is not
    recording has no live track (the microphone is released), and a
    capture has type [audio/wav].  The loading flag is set when a
    [handleSubmit] with a capture reaches its fetch and is clear when one
    resumes from it. *)
Theorem page_stays_consistent (actions : list Action) :
  let s := after actions initial in
  isRecording s = recorder_recording s
  ∧ microphone_released s = true
  ∧ capture_is_wav s = true
  ∧ (is_Some (audioBlob s) → isLoading (exec (handler SubmitBegin) s) = true)
  ∧ (∀ net, isLoading (exec (handler (SubmitSettle net)) s) = false).
Proof.
  intros s. destruct (after_consistent actions) as (Hrec & Hmic & Hwav).
  split_and!; try done.
  - intros [capture Hcapture]. unfold exec. cbn [handler].
    rewrite handleSubmit_begin_run. by rewrite Hcapture.
  - intros net. unfold exec. cbn [handler].
    by destruct (handleSubmit_resume_settles net s) as (resp & err & added & ->).
Qed.

(** X9: in every session reached from the first render, every handler and
    callback returns without an uncaught exception; in particular
    [stopRecording] never calls [stop()] on an inactive recorder. *)
Theorem page_handlers_return (actions : list Action) (a : Action) :
  (run (handler a) (after actions initial)).1 = Ok ().
Proof. apply handler_keeps_consistent, after_consistent. Qed.

(** X10: when a submission with a capture fails (rejected fetch,
    non-success status, body that is not JSON, null body), the page shows
    the fixed message whatever the answer's body says, keeps the response
    of the previous submission, starts no playback and keeps the capture
    for another try. *)
Theorem submit_failure_shows_fixed_message
  (s : Session) (capture : Blob) (net : FetchOutcome) :
  audioBlob s = Some capture →
  submit_fails net = true →
  let s' := submit net s in
  errorBox (render s') = Some "Failed to process your request. Please try again."
  ∧ response s' = response s
  ∧ playbacks s' = playbacks s
  ∧ audioBlob s' = Some capture.
Proof.
  intros Hcapture Hfail s'. subst s'. unfold submit, exec.
  assert (∃ e, run (handleSubmit net) s
               = (Ok (), submitted s capture (response s) (Some submit_failed)
                           [ConsoleError "Error submitting audio:" e])) as [e ->].
  { destruct net as [e|st b]; [by eexists; apply handleSubmit_rejected|].
    cbn in Hfail. destruct (status_ok st) eqn:Hst.
    2:{ eexists. by apply handleSubmit_status. }
    destruct b as [data|]; [|by eexists; apply handleSubmit_unparsable].
    destruct data; try done;
      unfold handleSubmit, try_finally, try_catch, mbind, Eff_bind, eff_bind;
      cbn [run get_state]; rewrite Hcapture; cbn; rewrite Hst; cbn;
      unfold submitted, relay_call; rewrite ?Hcapture; rewrite <- ?app_assoc; cbn;
      by eexists. }
  cbn [snd]. split_and!; try done.
  unfold playbacks at 1, submitted. cbn [trace]. rewrite playbacks_app. cbn.
  by rewrite app_nil_r.
Qed.

Lemma submit_failure_shows_fixed_message_witness :
  errorBox (render (submit
    (FetchResolved 400 (Some (JObj {[ "error" := JStr "No audio file provided" ]}))) ready))
  = Some "Failed to process your request. Please try again.".
Proof.
  destruct (submit_failure_shows_fixed_message ready
              (mkBlob [Byte.x52; Byte.x49] "audio/wav")
              (FetchResolved 400 (Some (JObj {[ "error" := JStr "No audio file provided" ]})))
              eq_refl eq_refl) as (Hmsg & _).
  exact Hmsg.
Defined.

(** X11: a submission with a capture sends exactly one request, on every
    path: a POST to [/api/process-voice] whose form has the capture as the
    part [audio] named [recording.wav]. *)
Theorem submit_sends_one_request (s : Session) (capture : Blob) (net : FetchOutcome) :
  audioBlob s = Some capture →
  network_calls (submit net s)
  = network_calls s
    ++ [Fetch "/api/process-voice" "POST" [Relay.mkPart "audio" capture "recording.wav"]].
Proof.
  intros Hcapture.
  destruct (handleSubmit_adds s capture net Hcapture) as (resp & err & added & Hrun & Hnone).
  unfold submit, exec. rewrite Hrun. cbn [snd].
  unfold network_calls, submitted. cbn [trace].
  rewrite List.filter_app. cbn. by rewrite Hnone.
Qed.

Lemma submit_sends_one_request_witness :
  network_calls (submit (FetchRejected (TypeError "Failed to fetch")) ready)
  = [Fetch "/api/process-voice" "POST"
       [Relay.mkPart "audio" (mkBlob [Byte.x52; Byte.x49] "audio/wav") "recording.wav"]].
Proof.
  apply (submit_sends_one_request ready (mkBlob [Byte.x52; Byte.x49] "audio/wav")
           (FetchRejected (TypeError "Failed to fetch"))).
  reflexivity.
Defined.

(** X12: stopping a recording gives a capture whose bytes are the bytes
    of the buffered chunks followed by those of the chunks delivered at
    the stop, in order, and whose type is [audio/wav] whatever the types
    of the chunks; the recorder is inactive, all tracks of its stream are
    ended, and the recording flag is clear. *)
Theorem stop_builds_capture
  (s : Session) (stream : MediaStream) (data : list Blob) :
  isRecording s = true →
  mediaRecorderRef s = Some (mkRecorder stream Recording) →
  let s' := stopCapture data s in
  audioBlob s'
  = Some (mkBlob (concat (blob_bytes <$> audioChunksRef s) ++ concat (blob_bytes <$> data))
                 "audio/wav")
  ∧ isRecording s' = false
  ∧ recorder_recording s' = false
  ∧ microphone_released s' = true
  ∧ eligible s' = audioBlob s'.
Proof.
  intros Hrec Href s'. subst s'.
  rewrite (stopCapture_recording stream data s Hrec Href).
  unfold eligible, render, recorder_recording, microphone_released. cbn.
  split_and!; try done.
  - unfold new_Blob. by rewrite fmap_app, concat_app.
  - apply tracks_all_ended.
Qed.

Lemma stop_builds_capture_witness :
  audioBlob (stopCapture [chunk_b]
               (exec (ondataavailable chunk_a) (startCapture (Ok microphone) initial)))
  = Some (mkBlob [Byte.x52; Byte.x49; Byte.x46; Byte.x46] "audio/wav").
Proof.
  destruct (stop_builds_capture
              (exec (ondataavailable chunk_a) (startCapture (Ok microphone) initial))
              microphone [chunk_b] eq_refl eq_refl) as (Hblob & _).
  exact Hblob.
Defined.

(** X13: between the return of [stopRecording] and the recorder's stop
    event the capture cell still holds what it held before the recording:
    nothing is offered for submission after a first recording, and after a
    later one the submit button is shown with the capture of the previous
    recording. *)
Theorem stop_window_offers_previous_capture (s : Session) (stream : MediaStream) :
  isRecording s = true →
  mediaRecorderRef s = Some (mkRecorder stream Recording) →
  eligible s = None
  ∧ eligible (exec stopRecording s) = audioBlob s.
Proof.
  intros Hrec Href. unfold exec.
  rewrite (stopRecording_recording stream s Hrec Href).
  unfold eligible, render. cbn. rewrite Hrec.
  by destruct (audioBlob s).
Qed.

Lemma stop_window_offers_previous_capture_witness :
  eligible (exec stopRecording (startCapture (Ok microphone) ready))
  = Some (mkBlob [Byte.x52; Byte.x49] "audio/wav").
Proof.
  apply (stop_window_offers_previous_capture (startCapture (Ok microphone) ready) microphone);
    reflexivity.
Defined.

End PageFacts.

(** * One submission, from the page through the relay and back *)

Section ThroughRelay.
Import Relay Client Page.

Variables (env : Platform) (w : World) (s : Session) (capture : Blob).
Hypothesis Hcapture : audioBlob s = Some capture.

Lemma uploaded_capture :
  request_formData (uploaded [mkPart "audio" capture "recording.wav"])
  = Ok [("audio", EntryFile (mkFile "recording.wav" (blob_type capture) (blob_bytes capture)))].
Proof. done. Qed.


(** X15: when the backend call fails (rejected fetch, non-success status,
    body that is not JSON), the relay's answer makes the page show its
    fixed message; the previous response stays, nothing is played, and the
    capture stays for another try. *)
Theorem submission_backend_failure :
  backend_fails (backend env) = true →
  let s' := (submit_via_relay env w s).1 in
  errorBox (render s') = Some "Failed to process your request. Please try again."
  ∧ response s' = response s
  ∧ playbacks s' = playbacks s
  ∧ audioBlob s' = Some capture
  ∧ isLoading s' = false.
Proof.
  intros Hfail s'. subst s'. unfold submit_via_relay. rewrite Hcapture.
  pose proof (respond_backend_failure env _ w _ uploaded_capture eq_refl Hfail) as Hanswer.
  destruct (respond env (uploaded [mkPart "audio" capture "recording.wav"]) w)
    as [answer w'].
  cbn [fst snd] in *. subst answer.
  unfold submit, exec, relayed, failure_response, NextResponse_json. cbn [status body].
  rewrite (handleSubmit_status s capture Hcapture 500%N _ eq_refl). cbn [snd].
  split_and!; try done.
  unfold playbacks at 1, submitted. cbn [trace]. rewrite playbacks_app. cbn.
  by rewrite app_nil_r.
Qed.

End ThroughRelay.


Lemma submission_backend_failure_witness :
  Client.errorBox (Client.render (Page.submit_via_relay (Relay.sample_platform Relay.backend_down)
                                                 Relay.empty_world Client.ready).1)
  = Some "Failed to process your request. Please try again.".
Proof.
  destruct (submission_backend_failure (Relay.sample_platform Relay.backend_down)
              Relay.empty_world Client.ready (mkBlob [Byte.x52; Byte.x49] "audio/wav")
              eq_refl eq_refl) as (Hmsg & _).
  exact Hmsg.
Defined.
